(** * tumblr_backup: pagination, filtering and index rebuild

    A shallow embedding of the parts of [tumblr_backup.py] that drive a
    backup: the API URL construction, the [ApiParser] (live and replay
    variants), the per-batch filter chain of [TumblrBackup.backup], its
    pagination loop, and the index writer.  Python integers are [Z] (or [nat]
    where the program validates them as non-negative), dictionaries with a
    fixed schema are records whose optional keys are [option] fields,
    dictionaries used as maps are [gmap], sets are [gset]. *)

From Stdlib Require Import ZArith Lia Ascii String.
From stdpp Require Import base option list strings gmap sorting pretty.

Local Open Scope string_scope.
Local Open Scope Z_scope.
Local Open Scope list_scope.

(** ** Python built-ins used by the program *)
Module Py.

(** Exceptions the modelled code raises. *)
Inductive exn :=
| ValueError | RuntimeError | AssertionError | KeyError | TypeError.

Section Sorted.
Context {A K : Type} (ltb : K -> K -> bool) (key : A -> K).

(** [keeps y x]: in the output, an element [y] already placed stays in
    front of [x], which came before it in the input. Only [<] on keys is
    used, and equal keys keep their input order (the sort is stable, also
    with [reverse=True]). *)
Definition keeps (reverse : bool) (y x : A) : bool :=
  if reverse then ltb (key x) (key y) else ltb (key y) (key x).

Fixpoint insert (reverse : bool) (x : A) (l : list A) : list A :=
  match l with
  | [] => [x]
  | y :: l' => if keeps reverse y x then y :: insert reverse x l'
               else x :: y :: l'
  end.

(** [sorted(l, key=key, reverse=reverse)] *)
Definition sorted (reverse : bool) (l : list A) : list A :=
  foldr (insert reverse) [] l.

(** [x] may stand in front of [y] in sorted output. *)
Definition ordered (reverse : bool) (x y : A) : Prop :=
  keeps reverse y x = false.
End Sorted.

(** [itertools.dropwhile(pred, l)] *)
Fixpoint dropwhile {A} (pred : A -> bool) (l : list A) : list A :=
  match l with
  | [] => []
  | x :: l' => if pred x then dropwhile pred l' else l
  end.

(** [itertools.islice(l, start, stop)] for [0 <= start]. *)
Definition islice {A} (l : list A) (start stop : nat) : list A :=
  take (stop - start) (drop start l).

(** [c in s] for a one-character [c]. *)
Fixpoint contains (c : ascii) (s : string) : bool :=
  match s with
  | EmptyString => false
  | String d s' => if Ascii.eqb c d then true else contains c s'
  end.

(** [str.lower] on the ASCII range. *)
Definition lower_char (c : ascii) : ascii :=
  let n := nat_of_ascii c in
  if (65 <=? n)%nat && (n <=? 90)%nat then ascii_of_nat (n + 32) else c.

Fixpoint lower (s : string) : string :=
  match s with
  | EmptyString => EmptyString
  | String c s' => String (lower_char c) (lower s')
  end.

(** Lexicographic [<] on pairs of integers (tuple comparison). *)
Definition pair_ltb (a b : Z * Z) : bool :=
  (a.1 <? b.1) || ((a.1 =? b.1) && (a.2 <? b.2)).

End Py.

Import Py.

(** ** Data model *)

(** One element of a post's ['trail']; only the presence of the
    ['is_current_item'] key is read. *)
Record TrailItem := { is_current_item : option bool }.

(** ['blog'] metadata. *)
Record Blog := {
  blog_title : option string;
  blog_description : option string;
  blog_posts : option Z;
  blog_share_likes : option bool;
}.

Definition empty_blog : Blog := Build_Blog None None None None.

(** A post as delivered by the API (a JSON object). Keys that the program
    tests with [in] are [option] fields. *)
Record Post := {
  id : Z;
  timestamp : Z;
  liked_timestamp : Z;          (* read in likes mode only *)
  type : string;
  tags : list string;
  reblogged_from_name : option string;
  reblogged_root_name : option string;
  trail : option (list TrailItem);
  blog : Blog;
}.

(** The command-line options read by the modelled code. *)
Record Options := {
  likes : bool;
  period : option (Z * Z);                (* [(p_start, p_stop)] when set *)
  request : gmap string (gset string);    (* empty: no type/tag filter *)
  no_reblog : bool;
  only_reblog : bool;
  jq_filter : option (Post -> bool);      (* [options.filter]: does [p] match *)
  no_post_clobber : bool;
  count : option nat;
  skip : nat;
  reverse_month : bool;
  reverse_index : bool;
  posts_per_page : nat;
  tag_index : bool;
  dirs : bool;
}.

Definition MAX_POSTS : nat := 50.
Definition TAG_ANY : string := "__all__".

(** ** [get_api_url] *)

(** The global [blog_name] is assigned before the name is validated, so the
    function returns its new value together with the URL or the error. *)
Definition get_api_url (options : Options) (account : string)
  : string * (exn + string) :=
  let blog_name := account in
  if contains "/" account || contains "\" account
     || bool_decide (account = ".") || bool_decide (account = "..")
  then (blog_name, inl ValueError)
  else
    let blog_name :=
      if negb (contains "." account) then blog_name +:+ ".tumblr.com"
      else blog_name in
    (blog_name,
     inr ("https://api.tumblr.com/v2/blog/" +:+ blog_name +:+ "/"
          +:+ (if likes options then "likes" else "posts"))).

(** ** [ApiParser] *)
Module Api.

(** A response body ([resp]): a JSON object whose keys differ between the
    posts API, the likes API and the replayed archive. *)
Record Resp := {
  posts : option (list Post);
  liked_posts : option (list Post);
  post_respfiles : option (list string);
  resp_blog : option Blog;
  liked_count : option Z;
  (* ['_links']: absent, or present with an optional
     [next.query_params.before] *)
  links : option (option Z);
}.

(** One entry of the ['errors'] list of an API answer. *)
Record ApiError := { code : option Z }.

(** The decoded JSON document of one HTTP answer. *)
Record Doc := {
  status : Z;                    (* [doc['meta']['status']] *)
  errors : list ApiError;
  response : option Resp;
}.

Inductive Endpoint :=
| PublicApi (base : string)
| DashboardApi (account : string).   (* svc/indash_blog *)

(** The request that [_get_resp] sends: [base], [params], [headers]. *)
Record Request := {
  endpoint : Endpoint;
  limit : nat;
  before_param : option Z;
  offset_param : option nat;
}.

Inductive Event :=
| Sent (r : Request)      (* one call of [_get_resp] *)
| Slept (seconds : Z).    (* [time.sleep] *)

(** A snapshot file of a previous archive: [<stem>.json]. *)
Record Snapshot := {
  path : string;
  stem : Z;                 (* [int(e.name[:-5])] *)
  snapshot : Post;          (* the parsed file *)
}.

Record ApiParser := {
  base : string;
  account : string;
  prev_resps : option (list Snapshot);
  dashboard_only_blog : option bool;
}.

Definition init (base account : string) : ApiParser :=
  Build_ApiParser base account None None.

Definition set_dashboard (self : ApiParser) (d : option bool) : ApiParser :=
  Build_ApiParser (base self) (account self) (prev_resps self) d.

(** Truth value of [self.dashboard_only_blog]. *)
Definition is_dashboard (self : ApiParser) : bool :=
  match dashboard_only_blog self with Some true => true | _ => false end.

Section WithOptions.
Variable options : Options.

(** The date of a post ([TumblrPost.date]). *)
Definition date_of (p : Post) : Z :=
  if likes options then liked_timestamp p else timestamp p.

(** The key [read_archive] sorts the snapshot files by. *)
Definition archive_key (e : Snapshot) : Z :=
  if likes options then liked_timestamp (snapshot e) else stem e.

(** [read_archive]; [entries] are the [*.json] files of the [json]
    directory in [os.scandir] order. *)
Definition read_archive (self : ApiParser) (entries : list Snapshot)
  : ApiParser :=
  Build_ApiParser (base self) (account self)
    (Some (sorted Z.ltb archive_key true entries))
    (dashboard_only_blog self).

(** The replay branch of [apiparse]. *)
Definition replay (resps : list Snapshot) (count start : nat)
    (before : option Z) : Resp :=
  let posts0 :=
    match before with
    | Some b => dropwhile (fun pp => b <=? date_of (snapshot pp)) resps
    | None => resps
    end in
  let page := islice posts0 start (start + count) in
  {| posts := Some (snapshot <$> page);
     liked_posts := None;
     post_respfiles := Some (path <$> page);
     resp_blog :=
       let b := match page with
                | pp :: _ => blog (snapshot pp)
                | [] => empty_blog
                end in
       Some (Build_Blog (blog_title b) (blog_description b)
               (Some (Z.of_nat (length resps))) (blog_share_likes b));
     liked_count := None;
     links := None |}.

(** [base], [params] and [headers] of the live branch. *)
Definition make_request (self : ApiParser) (count start : nat)
    (before : option Z) : Request :=
  let dash := is_dashboard self in
  {| endpoint := if dash then DashboardApi (account self)
                 else PublicApi (base self);
     limit := count;
     before_param := if dash then None else before;
     offset_param :=
       match (if dash then None else before) with
       | Some _ => None
       | None => if (0 <? start)%nat then Some start else None
       end |}.

(** What the [while True] loop around [_get_resp] ends with. *)
Inductive Polled :=
| Waiting                (* no answer yet: the request is outstanding *)
| NoDoc                  (* [_get_resp] returned [None] *)
| Answer (doc : Doc).    (* an answer whose status is not 429 *)

(** The throttling loop. [answers] are the results of the successive
    [_get_resp] calls ([None] for a failed one). *)
Fixpoint poll (req : Request) (sleep_dur : Z) (answers : list (option Doc))
  : list Event * Polled * list (option Doc) :=
  match answers with
  | [] => ([Sent req], Waiting, [])
  | None :: rest => ([Sent req], NoDoc, rest)
  | Some doc :: rest =>
      if status doc =? 429 then
        let '(tr, r, rest') := poll req (sleep_dur * 2) rest in
        (Sent req :: Slept sleep_dur :: tr, r, rest')
      else ([Sent req], Answer doc, rest)
  end.

(** The error signature of a dashboard-only blog. *)
Definition dashboard_signature (doc : Doc) : bool :=
  match errors doc with
  | [e] => bool_decide (code e = Some 4012)
  | _ => false
  end.

Inductive Fetched :=
| Pending                        (* still waiting for the network *)
| Raised (e : exn)
| Returned (resp : option Resp).

Record Outcome := {
  result : Fetched;
  parser : ApiParser;
  unread : list (option Doc);
  trace : list Event;
}.

Definition after (tr : list Event) (o : Outcome) : Outcome :=
  Build_Outcome (result o) (parser o) (unread o) (tr ++ trace o).

(** The live branch of [apiparse]; [depth] bounds the nesting of the
    "recurse once" call. *)
Fixpoint live (depth : nat) (self : ApiParser) (count start : nat)
    (before : option Z) (answers : list (option Doc)) : Outcome :=
  match depth with
  | O => Build_Outcome Pending self answers []
  | S depth' =>
    let req := make_request self count start before in
    let '(tr, polled, rest) := poll req 30 answers in
    match polled with
    | Waiting => Build_Outcome Pending self rest tr
    | NoDoc => Build_Outcome (Returned None) self rest tr
    | Answer doc =>
      if negb (status doc =? 200) then
        if bool_decide (dashboard_only_blog self = None)
           && (status doc =? 404) && negb (likes options)
           && dashboard_signature doc
        then
          after tr (live depth' (set_dashboard self (Some true))
                      count start None rest)
        else Build_Outcome (Returned None) self rest tr
      else
        let self' :=
          if is_dashboard self then self
          else if bool_decide (dashboard_only_blog self = None)
               then set_dashboard self (Some false)
               else self in
        match response doc with
        | Some resp =>
          if is_dashboard self' then
            match posts resp with
            | None => Build_Outcome (Raised KeyError) self' rest tr
            | Some ps =>
              let b := match ps with
                       | p :: _ => blog p
                       | [] => empty_blog
                       end in
              Build_Outcome
                (Returned (Some (Build_Resp (posts resp) (liked_posts resp)
                   (post_respfiles resp) (Some b) (liked_count resp)
                   (links resp))))
                self' rest tr
            end
          else Build_Outcome (Returned (Some resp)) self' rest tr
        | None => Build_Outcome (Returned None) self' rest tr
        end
    end
  end.

(** [apiparse(count, start, before)] *)
Definition apiparse (self : ApiParser) (count start : nat)
    (before : option Z) (answers : list (option Doc)) : Outcome :=
  match prev_resps self with
  | Some resps =>
      Build_Outcome (Returned (Some (replay resps count start before)))
        self answers []
  | None => live 2 self count start before answers
  end.

End WithOptions.
End Api.

(** ** [TumblrBackup.backup] *)
Module Backup.
Import Api.

(** What a run has done so far: [self.post_count], [self.filter_skipped]
    and the jobs handed to the thread pool, oldest first. *)
Record Progress := {
  post_count : nat;
  filter_skipped : nat;
  queued : list Post;
}.

Definition fresh : Progress := Build_Progress 0 0 [].

(** What happens to one post in the filter chain of [_backup]. *)
Inductive Verdict :=
| Stop              (* [return False, oldest_date] *)
| Fatal (e : exn)   (* [raise] *)
| Skip              (* [continue] *)
| Unmatched         (* [continue] after [filter_skipped += 1] *)
| Save.             (* [backup_pool.add_work(post.save_content)] *)

(** The result of [_backup]: an exception or [(res, oldest_date)]. *)
Inductive Batch :=
| Raise (e : exn)
| Return (res : bool) (oldest_date : option Z).

Section WithOptions.
Variable options : Options.
(** The highest key already saved, when the backup is incremental. *)
Variable ident_max : option Z.
(** [os.path.exists(path_to( *post.get_path()))] *)
Variable on_disk : Post -> bool.

(** [sort_key]: the key of the incremental test as well. *)
Definition sort_key (p : Post) : Z :=
  if likes options then liked_timestamp p else id p.

Definition tags_lower (p : Post) : gset string :=
  list_to_set (lower <$> tags p).

Definition request_allows (p : Post) : bool :=
  if bool_decide (request options = ∅) then true
  else match request options !! type p with
       | None => false
       | Some wanted =>
           bool_decide (TAG_ANY ∈ wanted)
           || negb (bool_decide (wanted ∩ tags_lower p = ∅))
       end.

(** ['is_current_item' not in trail[-1]] for a non-empty trail. *)
Definition last_not_current (t : list TrailItem) : bool :=
  match last t with
  | Some item => match is_current_item item with
                 | Some _ => false
                 | None => true
                 end
  | None => false
  end.

Definition post_is_reblog (p : Post) : bool :=
  if bool_decide (is_Some (reblogged_from_name p))
     || bool_decide (is_Some (reblogged_root_name p))
  then match trail p with
       | Some [] => true
       | Some t => last_not_current t
       | None => false
       end
  else match trail p with
       | Some ((_ :: _) as t) => last_not_current t
       | _ => false
       end.

(** The period test; [None] when the post goes on to the next test. *)
Definition period_test (dashboard : bool) (p : Post) : option Verdict :=
  match period options with
  | Some (p_start, p_stop) =>
      if p_stop <? date_of options p then
        if dashboard then Some Skip else Some (Fatal RuntimeError)
      else if date_of options p <? p_start then Some Stop
      else None
  | None => None
  end.

(** The tests after the period test, in the order of the source. *)
Definition content_tests (p : Post) : Verdict :=
  if negb (request_allows p) then Skip
  else if no_reblog options && post_is_reblog p then Skip
  else if only_reblog options && negb (post_is_reblog p) then Skip
  else if match jq_filter options with
          | Some matches => negb (matches p)
          | None => false
          end then Unmatched
  else if on_disk p && no_post_clobber options then Skip
  else Save.

Definition incremental_test (p : Post) : bool :=
  match ident_max with
  | None => false
  | Some m => sort_key p <=? m
  end.

Definition examine (dashboard : bool) (p : Post) : Verdict :=
  if incremental_test p then Stop
  else match period_test dashboard p with
       | Some v => v
       | None => content_tests p
       end.

(** [options.count and self.post_count >= options.count] *)
Definition limit_reached (st : Progress) : bool :=
  match count options with
  | Some n => negb (n =? 0)%nat && (n <=? post_count st)%nat
  | None => false
  end.

Definition enqueue (p : Post) (st : Progress) : Progress :=
  Build_Progress (S (post_count st)) (filter_skipped st) (queued st ++ [p]).

Definition unmatched (st : Progress) : Progress :=
  Build_Progress (post_count st) (S (filter_skipped st)) (queued st).

(** The [for] loop of [_backup] over the sorted posts. *)
Fixpoint process (dashboard : bool) (oldest_date : option Z)
    (st : Progress) (l : list Post) : Batch * Progress :=
  match l with
  | [] => (Return true oldest_date, st)
  | p :: rest =>
      let oldest_date := Some (date_of options p) in
      match examine dashboard p with
      | Stop => (Return false oldest_date, st)
      | Fatal e => (Raise e, st)
      | Skip => process dashboard oldest_date st rest
      | Unmatched => process dashboard oldest_date (unmatched st) rest
      | Save =>
          let st' := enqueue p st in
          if limit_reached st' then (Return false oldest_date, st')
          else process dashboard oldest_date st' rest
      end
  end.

(** [_backup(posts, post_respfiles)]; the response files ride along with
    their posts and are not modelled. *)
Definition _backup (dashboard : bool) (posts : list Post) (st : Progress)
  : Batch * Progress :=
  process dashboard None st (sorted Z.ltb sort_key true posts).

(** The cursor update of "before" pagination. *)
Definition advance (before : Z) (oldest_date : option Z) : exn + Z :=
  match oldest_date with
  | None => inl TypeError
  | Some d =>
      if d <=? before then inr (if d =? before then d - 1 else d)
      else inl AssertionError
  end.

(** The state of the pagination loop. [answers] are the answers the
    remote side will give to the coming requests, [events] what the
    parser has done so far (newest last), [cursors] the [before]
    argument of each [apiparse] call of the loop so far. *)
Record Config := {
  api : ApiParser;
  i : nat;
  before : option Z;
  progress : Progress;
  answers : list (option Doc);
  events : list Event;
  cursors : list (option Z);
}.

Inductive Run :=
| Done               (* the loop ended by [break], account not failed *)
| Failed             (* the account was added to [failed_blogs] *)
| Crashed (e : exn)  (* an exception left the loop: the pool is cancelled *)
| Stalled.           (* waiting for an answer that has not come *)

Inductive Step :=
| Next (page : list Post) (c : Config)
| Halt (r : Run) (c : Config).

(** The rest of a pass of the loop once [_backup] has returned [b] with
    progress [st]: [c1] is the state after the fetch of [page] in
    response [resp]. *)
Definition settle (c1 : Config) (resp : Resp) (page : list Post)
    (b : Batch) (st : Progress) : Step :=
  let c2 := Build_Config (api c1) (i c1) (before c1) st
              (answers c1) (events c1) (cursors c1) in
  let continue (before' : option Z) :=
    Next page (Build_Config (api c1) (i c1 + MAX_POSTS) before' st
                 (answers c1) (events c1) (cursors c1)) in
  match b with
  | Raise e => Halt (Crashed e) c2
  | Return false _ => Halt Done c2
  | Return true oldest_date =>
    if likes options then
      match links resp with
      | None => Halt (Crashed KeyError) c2
      | Some None => Halt Done c2
      | Some (Some b') => continue (Some b')
      end
    else
      match before c1 with
      | Some b0 =>
        if is_dashboard (api c1) then continue (before c1)
        else match advance b0 oldest_date with
             | inl e => Halt (Crashed e) c2
             | inr b' => continue (Some b')
             end
      | None => continue None
      end
  end.

(** One pass of the [while True] loop. *)
Definition iteration (c : Config) : Step :=
  let out := apiparse options (api c) MAX_POSTS (i c) (before c) (answers c) in
  let c1 := Build_Config (parser out) (i c) (before c) (progress c)
              (unread out) (events c ++ trace out)
              (cursors c ++ [before c]) in
  match result out with
  | Pending => Halt Stalled c1
  | Raised e => Halt (Crashed e) c1
  | Returned None => Halt Failed c1
  | Returned (Some resp) =>
    match (if likes options then liked_posts resp else posts resp) with
    | None => Halt (Crashed KeyError) c1
    | Some [] => Halt Done c1
    | Some page =>
      let '(b, st) := _backup (is_dashboard (parser out)) page (progress c) in
      settle c1 resp page b st
    end
  end.

(** The loop, cut off after [fuel] passes. *)
Fixpoint loop (fuel : nat) (c : Config) : option Run * Config :=
  match fuel with
  | O => (None, c)
  | S fuel' =>
      match iteration c with
      | Next _ c' => loop fuel' c'
      | Halt r c' => (Some r, c')
      end
  end.

(** [not resp] for the first response. *)
Definition empty_resp (r : Resp) : bool :=
  match posts r, liked_posts r, post_respfiles r, resp_blog r,
        liked_count r, links r with
  | None, None, None, None, None, None => true
  | _, _, _, _, _, _ => false
  end.

(** [backup(account, prev_archive)] up to the end of the pagination loop.
    [prev_archive] holds the snapshot files of the previous archive. *)
Definition backup (fuel : nat) (account : string)
    (prev_archive : option (list Snapshot)) (answers : list (option Doc))
  : option Run * Config :=
  let start := Build_Config (init EmptyString account) (skip options) None fresh
                 answers [] [] in
  match get_api_url options account with
  | (_, inl e) => (Some (Crashed e), start)
  | (_, inr base) =>
    let api0 := init base account in
    let api1 := match prev_archive with
                | Some entries => read_archive options api0 entries
                | None => api0
                end in
    let out := apiparse options api1 1 0 None answers in
    let c0 := Build_Config (parser out) (skip options)
                (match period options with
                 | Some (_, p_stop) => Some p_stop
                 | None => None
                 end)
                fresh (unread out) (trace out) [] in
    match result out with
    | Pending => (Some Stalled, c0)
    | Raised e => (Some (Crashed e), c0)
    | Returned None => (Some Failed, c0)
    | Returned (Some resp) =>
      if empty_resp resp then (Some Failed, c0)
      else if likes options then
        match resp_blog resp ≫= blog_share_likes with
        | Some false => (Some Failed, c0)
        | _ => match liked_count resp with
               | None => (Some (Crashed KeyError), c0)
               | Some _ => loop fuel c0
               end
        end
      else loop fuel c0
    end
  end.

End WithOptions.
End Backup.

(** ** [Index]: the monthly archive pages and the index file *)
Module Index.

(** A post file found on disk. [date] is its modification time, [tm_year]
    and [tm_mon] come from [time.localtime(date)], [get_post] is the
    article cut out of the file (with the media links rewritten when the
    argument is [true]). *)
Record LocalPost := {
  post_file : string;
  date : Z;
  tm_year : Z;
  tm_mon : Z;
  get_post : bool -> string;
}.

(** [self.index]: year, then month, then the posts in the order added.
    The program walks the keys only through [sorted]. *)
Abbreviation Index := (gmap Z (gmap Z (list LocalPost))).

Definition months_of (index : Index) (y : Z) : gmap Z (list LocalPost) :=
  default ∅ (index !! y).

Definition posts_of (index : Index) (y m : Z) : list LocalPost :=
  default [] (months_of index y !! m).

Definition add_post (index : Index) (post : LocalPost) : Index :=
  let y := tm_year post in
  let m := tm_mon post in
  <[ y := <[ m := posts_of index y m ++ [post] ]> (months_of index y) ]> index.

(** [Indices.build_index] for the main index; [files] are the post files
    in the order [glob] lists them. *)
Definition build_index (files : list LocalPost) : Index :=
  foldl add_post ∅ files.

(** The post belongs to the month [m] of the year [y]. *)
Definition in_month (y m : Z) (p : LocalPost) : Prop :=
  tm_year p = y /\ tm_mon p = m.

#[export] Instance in_month_dec y m p : Decision (in_month y m p).
Proof. unfold in_month. apply _. Defined.

(** Two indices that the writer cannot tell apart: the same years and
    months, and in each month as many posts and the same posts once
    sorted. *)
Definition similar (reverse : bool) (index1 index2 : Index) : Prop :=
  dom index1 = dom index2
  /\ (forall y, dom (months_of index1 y) = dom (months_of index2 y))
  /\ (forall y m, sorted Z.ltb date reverse (posts_of index1 y m)
                  = sorted Z.ltb date reverse (posts_of index2 y m))
  /\ (forall y m, length (posts_of index1 y m) = length (posts_of index2 y m)).

(** A file written through [open_text]: its path parts and its content. *)
Definition File : Type := list string * string.

Definition nl : string := String (ascii_of_nat 10) EmptyString.
Definition dquote : string := String (ascii_of_nat 34) EmptyString.

Definition archive_dir : string := "archive".
Definition dir_index : string := "index.html".
Definition tag_index_dir : string := "tags".

Definition starts_with_slash (s : string) : bool :=
  match s with
  | String c _ => Ascii.eqb c "/"
  | EmptyString => false
  end.

Fixpoint ends_with_slash (s : string) : bool :=
  match s with
  | EmptyString => false
  | String c EmptyString => Ascii.eqb c "/"
  | String _ s' => ends_with_slash s'
  end.

(** [posixpath.join(a, b)] *)
Definition urlpathjoin (a b : string) : string :=
  if starts_with_slash b then b
  else if bool_decide (a = EmptyString) || ends_with_slash a then a +:+ b
  else a +:+ "/" +:+ b.

(** ['%02d' % n] *)
Definition two_digits (n : Z) : string :=
  if (0 <=? n) && (n <? 10) then "0" +:+ pretty n else pretty n.

(** [FILE_FMT % (year, month, page, suffix)] *)
Definition FILE_FMT (year month : Z) (page : nat) (suffix : string) : string :=
  pretty year +:+ "-" +:+ two_digits month +:+ "-p" +:+ pretty page +:+ suffix.

(** [range(0, stop, step)] for [step >= 1]. *)
Definition range (stop step : nat) : list nat :=
  (fun k => k * step)%nat <$> seq 0 ((stop + step - 1) / step).

(** Runs [f] over [l] in order, joining the text written to the index file
    and the files written on the way; [None] as soon as one call fails. *)
Fixpoint collect {A} (f : A -> option (string * list File)) (l : list A)
  : option (string * list File) :=
  match l with
  | [] => Some (EmptyString, [])
  | x :: l' =>
      match f x with
      | None => None
      | Some (text, files) =>
          match collect f l' with
          | None => None
          | Some (text', files') => Some (text +:+ text', files ++ files')
          end
      end
  end.

Section Save.
Variable options : Options.
(** [self.blog.header(title, body_class, subtitle, avatar)] and the
    blog's title and subtitle. *)
Variable header : string -> string -> string -> bool -> string.
Variables blog_title blog_subtitle : string.
(** [strftime(fmt, tm)] for the [tm] of the third day of a month. *)
Variable strftime : string -> Z -> Z -> string.
(** The globals [post_ext] and [save_dir]. *)
Variables post_ext save_dir : string.
(** [strftime('%x %X')]: the local time when the index file is written. *)
Variable now : string.

(** [TumblrBackup.footer] *)
Definition footer (base previous_page next_page : string) : string :=
  "<footer><nav>"
  +:+ "<a href=" +:+ urlpathjoin save_dir dir_index +:+ " rel=index>Index</a>" +:+ nl
  +:+ (if bool_decide (previous_page = EmptyString) then EmptyString
       else "| <a href=" +:+ urlpathjoin base previous_page
            +:+ " rel=prev>Previous</a>" +:+ nl)
  +:+ (if bool_decide (next_page = EmptyString) then EmptyString
       else "| <a href=" +:+ urlpathjoin base next_page
            +:+ " rel=next>Next</a>" +:+ nl)
  +:+ "</nav></footer>" +:+ nl.

Section Month.
Variable index : Index.
Variable body_class : string.
Variable archives : list (Z * Z).
Variable index_dir : string.

(** [archives.index((year, month))] *)
Fixpoint position (ym : Z * Z) (l : list (Z * Z)) : option nat :=
  match l with
  | [] => None
  | x :: l' => if bool_decide (x = ym) then Some O
               else S <$> position ym l'
  end.

(** [next_month(inc)] for [inc] = -1 ([forward = false]) or +1. *)
Definition next_month (year month : Z) (forward : bool) : option (Z * Z) :=
  match position (year, month) archives with
  | None => None     (* ValueError *)
  | Some k =>
      Some (if forward then default (0, 0) (archives !! S k)
            else match k with
                 | O => (0, 0)
                 | S k' => default (0, 0) (archives !! k')
                 end)
  end.

(** [pages_per_month(y, m)] inside [save_month], where [posts_page] is the
    page size of the month being saved. *)
Definition pages_per_month (posts_page : nat) (y m : Z) : nat :=
  let posts_m := length (posts_of index y m) in
  (posts_m / posts_page + (if (posts_m mod posts_page =? 0) then 0 else 1))%nat.

(** The body of the [for page, start in enumerate(...)] loop of
    [save_month]: the file of one page. [posts] are the sorted posts of the
    month. *)
Definition write_page (year month : Z) (posts : list LocalPost)
    (posts_page : nat) (page start : nat) : option File :=
  let pages_month := pages_per_month posts_page year month in
  let suffix := if dirs options then "/" else post_ext in
  let archive :=
    [header (strftime "%B %Y" year month) "archive" EmptyString false]
    ++ ((fun p => get_post p (bool_decide (body_class = "tag-archive")))
          <$> islice posts start (start + posts_page)) in
  let file_name := FILE_FMT year month page suffix in
  let base := if dirs options then urlpathjoin save_dir archive_dir
              else EmptyString in
  let parts := if dirs options
               then [index_dir; archive_dir; file_name; dir_index]
               else [index_dir; archive_dir; file_name] in
  pp ← (if (1 <? page)%nat
        then Some (FILE_FMT year month (page - 1) suffix)
        else '(py, pm) ← next_month year month false;
             Some (if py =? 0 then EmptyString
                   else FILE_FMT py pm (pages_per_month posts_page py pm)
                          suffix));
  np ← (if (page <? pages_month)%nat
        then Some (FILE_FMT year month (page + 1) suffix)
        else '(ny, nm) ← next_month year month true;
             Some (if ny =? 0 then EmptyString
                   else FILE_FMT ny nm 1 suffix));
  Some (parts, String.concat nl (archive ++ [footer base pp np])).

(** [save_month]: the name of the month's first page and the pages
    written. [None] stands for the exceptions of an empty month
    ([ZeroDivisionError], the final [assert]) or of a month missing in
    [archives]; [add_post] and [save_index] exclude both. *)
Definition save_month (year month : Z) : option (string * list File) :=
  let posts := sorted Z.ltb date (reverse_month options)
                 (posts_of index year month) in
  let posts_month := length posts in
  let posts_page := if (1 <=? posts_per_page options)%nat
                    then posts_per_page options else posts_month in
  let suffix := if dirs options then "/" else post_ext in
  if (posts_page =? 0)%nat then None
  else
    files ← mapM (fun '(k, start) =>
                    write_page year month posts posts_page (S k) start)
              (imap (fun k start => (k, start)) (range posts_month posts_page));
    match files with
    | [] => None
    | _ :: _ => Some (FILE_FMT year month 1 suffix, files)
    end.

(** [save_year]: the text added to the index file and the pages
    written. *)
Definition save_year (year : Z) : option (string * list File) :=
  '(items, files) ←
    collect (fun month =>
        '(month_name, files) ← save_month year month;
        Some ("    <li><a href=" +:+ urlpathjoin archive_dir month_name
              +:+ " title=" +:+ dquote
              +:+ pretty (length (posts_of index year month))
              +:+ " post(s)" +:+ dquote +:+ ">"
              +:+ strftime "%B" year month +:+ "</a></li>" +:+ nl,
              files))
      (sorted Z.ltb (fun m => m) (reverse_index options)
         (elements (dom (months_of index year))));
  Some ("<h3>" +:+ pretty year +:+ "</h3>" +:+ nl +:+ "<ul>" +:+ nl
        +:+ items +:+ "</ul>" +:+ nl +:+ nl, files).
End Month.

(** [Index.save_index(index_dir, title)]: the files written. The index
    file, which the program opens first and closes last, comes last. *)
Definition save_index (index : Index) (body_class : string)
    (index_dir : string) (title : option string) : option (list File) :=
  let archives :=
    sorted pair_ltb (fun ym => ym) (reverse_month options)
      (y ← elements (dom index);
       (fun m => (y, m)) <$> elements (dom (months_of index y))) in
  let subtitle := match title with
                  | Some _ => blog_title
                  | None => blog_subtitle
                  end in
  let title := default blog_title title in
  '(years, files) ←
    collect (save_year index body_class archives index_dir)
      (sorted Z.ltb (fun y => y) (reverse_index options)
         (elements (dom index)));
  Some (files ++
        [([index_dir; dir_index],
          header title body_class subtitle true
          +:+ (if tag_index options && bool_decide (body_class = "index")
               then "<p><a href=" +:+ urlpathjoin tag_index_dir dir_index
                    +:+ ">Tag index</a></p>" +:+ nl
               else EmptyString)
          +:+ years
          +:+ "<footer><p>Generated on " +:+ now
          +:+ " by <a href=https://github.com/"
          +:+ "bbolli/tumblr-utils>tumblr-utils</a>.</p></footer>" +:+ nl)]).

(** [Indices.build_index] followed by the [main_index.save_index()] of
    [Indices.save_index]. *)
Definition rebuild (files : list LocalPost) : option (list File) :=
  save_index (build_index files) "index" "." None.

End Save.
End Index.

(** ** The words of the specification, and the notions used to state and
    prove the properties of a run *)
Module Spec.
Import Api Backup.

(** A post is a reblog when a reblog-source field is present and the trail
    is explicitly empty or its last element lacks the marker, or when no
    reblog-source field is present and a non-empty trail's last element
    lacks the marker. *)
Definition is_reblog (p : Post) : Prop :=
  let source := is_Some (reblogged_from_name p)
                \/ is_Some (reblogged_root_name p) in
  let unmarked (t : list TrailItem) :=
    exists item, last t = Some item /\ is_current_item item = None in
  (source /\ exists t, trail p = Some t /\ (t = [] \/ unmarked t))
  \/ (~ source /\ exists t, trail p = Some t /\ t <> [] /\ unmarked t).

(** The effective timestamp: post time in posts mode, like time in likes
    mode. *)
Definition effective_timestamp (options : Options) (p : Post) : Z :=
  if likes options then liked_timestamp p else timestamp p.

(** The oldest effective timestamp seen in a batch. *)
Definition oldest (options : Options) (page : list Post) : option Z :=
  match page with
  | [] => None
  | p :: rest =>
      Some (foldr (fun q acc => Z.min (effective_timestamp options q) acc)
              (effective_timestamp options p) rest)
  end.

(** The cursor after a batch: the oldest effective timestamp, minus one
    second if and only if it equals the previous cursor. *)
Definition next_cursor (options : Options) (previous : Z) (page : list Post)
  : option Z :=
  (fun d => if bool_decide (d = previous) then d - 1 else d)
    <$> oldest options page.

(** Descending order of effective timestamps. *)
Definition newest_first (options : Options) (l : list Post) : Prop :=
  StronglySorted
    (fun a b => effective_timestamp options b <= effective_timestamp options a)
    l.

(** The replayed page: the snapshots sorted newest first, without those at
    or after [before], from index [start], at most [count] of them. *)
Definition replayed_page (options : Options) (archive : list Snapshot)
    (count start : nat) (before : option Z) : list Post :=
  let newest_first :=
    sorted Z.ltb (fun e => effective_timestamp options (snapshot e)) true
      archive in
  let kept :=
    match before with
    | Some b =>
        base.filter (fun e => effective_timestamp options (snapshot e) < b)
          newest_first
    | None => newest_first
    end in
  snapshot <$> take count (drop start kept).

(** The retries after [n] throttled answers: the same request each time,
    then a sleep, the first of [first] seconds and each next one twice as
    long. *)
Fixpoint backoff (req : Request) (first : Z) (n : nat) : list Event :=
  match n with
  | O => []
  | S n' => Sent req :: Slept first :: backoff req (first * 2) n'
  end.

Fixpoint sleeps (tr : list Event) : list Z :=
  match tr with
  | [] => []
  | Slept d :: tr' => d :: sleeps tr'
  | Sent _ :: tr' => sleeps tr'
  end.

Fixpoint requests (tr : list Event) : list Request :=
  match tr with
  | [] => []
  | Sent r :: tr' => r :: requests tr'
  | Slept _ :: tr' => requests tr'
  end.

Definition to_dashboard (r : Request) : bool :=
  match endpoint r with
  | DashboardApi _ => true
  | PublicApi _ => false
  end.

(** The endpoints of the requests of a run, in order: [false] for the
    public API, [true] for the dashboard endpoint. *)
Definition endpoints (tr : list Event) : list bool :=
  to_dashboard <$> requests tr.

(** Public requests first, dashboard requests after them, never back. *)
Definition switches_at_most_once (l : list bool) : Prop :=
  exists n m, l = replicate n false ++ replicate m true.

(** What has been sent so far fits the parser's choice: no dashboard request
    yet while the parser has not chosen the dashboard endpoint. *)
Definition settled (tr : list Event) (self : ApiParser) : Prop :=
  exists n m,
    endpoints tr = replicate n false ++ replicate m true
    /\ (is_dashboard self = false -> m = O).

(** The state a pass of the loop leaves behind. *)
Definition config_of (s : Step) : Config :=
  match s with
  | Next _ c => c
  | Halt _ c => c
  end.

End Spec.

(** ** Concrete inputs used in examples *)
Module Demo.

Definition options : Options :=
{| likes := false; period := None; request := ∅; no_reblog := false;
   only_reblog := false; jq_filter := None; no_post_clobber := false;
   count := None; skip := 0; reverse_month := true; reverse_index := true;
   posts_per_page := 50; tag_index := false; dirs := false |}.

(** A text post with the given id and timestamp. *)
Definition post (i t : Z) : Post :=
  {| id := i; timestamp := t; liked_timestamp := 0; type := "text";
     tags := []; reblogged_from_name := None; reblogged_root_name := None;
     trail := None; blog := empty_blog |}.

(** A post reblogged from another blog, with an empty trail. *)
Definition reblog (i t : Z) : Post :=
  {| id := i; timestamp := t; liked_timestamp := 0; type := "text";
     tags := []; reblogged_from_name := Some "staff";
     reblogged_root_name := None; trail := Some []; blog := empty_blog |}.

Definition no_reblog_options : Options :=
  {| likes := false; period := None; request := ∅; no_reblog := true;
     only_reblog := false; jq_filter := None; no_post_clobber := false;
     count := None; skip := 0; reverse_month := true; reverse_index := true;
     posts_per_page := 50; tag_index := false; dirs := false |}.

(** A backup limited to the window [100, 300]. *)
Definition period_options : Options :=
  {| likes := false; period := Some (100, 300); request := ∅;
     no_reblog := false; only_reblog := false; jq_filter := None;
     no_post_clobber := false; count := None; skip := 0;
     reverse_month := true; reverse_index := true; posts_per_page := 50;
     tag_index := false; dirs := false |}.

Definition nothing_on_disk (p : Post) : bool := false.

(** A successful answer of the posts API carrying [ps]. *)
Definition resp_of (ps : list Post) : Api.Resp :=
  {| Api.posts := Some ps; Api.liked_posts := None;
     Api.post_respfiles := None; Api.resp_blog := Some empty_blog;
     Api.liked_count := None; Api.links := None |}.

Definition answer_of (ps : list Post) : option Api.Doc :=
  Some {| Api.status := 200; Api.errors := [];
          Api.response := Some (resp_of ps) |}.

(** An answer with the given status and error codes and no body. *)
Definition refusal (status : Z) (codes : list Z) : option Api.Doc :=
  Some {| Api.status := status;
          Api.errors := (fun c => Api.Build_ApiError (Some c)) <$> codes;
          Api.response := None |}.

(** A parser that has already found the blog to be public. *)
Definition public_parser : Api.ApiParser :=
  {| Api.base := "https://api.tumblr.com/v2/blog/staff.tumblr.com/posts";
     Api.account := "staff"; Api.prev_resps := None;
     Api.dashboard_only_blog := Some false |}.

(** The state of the loop before its first pass. *)
Definition start (parser : Api.ApiParser) (before : option Z)
    (answers : list (option Api.Doc)) : Backup.Config :=
  {| Backup.api := parser; Backup.i := 0; Backup.before := before;
     Backup.progress := Backup.fresh; Backup.answers := answers;
     Backup.events := []; Backup.cursors := [] |}.

(** The snapshot file [json/<id>.json] of a post. *)
Definition snap (p : Post) : Api.Snapshot :=
  {| Api.path := "json/" +:+ pretty (id p) +:+ ".json"; Api.stem := id p;
     Api.snapshot := p |}.

(** A parser that has not yet made any request. *)
Definition new_parser : Api.ApiParser :=
  Api.init "https://api.tumblr.com/v2/blog/staff.tumblr.com/posts" "staff".

(** Stand-ins for the page header and for [strftime]. *)
Definition header (title body_class subtitle : string) (avatar : bool)
  : string :=
  "<title>" +:+ title +:+ "</title>".

Definition strftime (fmt : string) (year month : Z) : string :=
  fmt +:+ " of " +:+ pretty year +:+ "-" +:+ pretty month.

(** A post file with the given name, modification time and month. *)
Definition local_post (name : string) (mtime year month : Z)
  : Index.LocalPost :=
  {| Index.post_file := name; Index.date := mtime; Index.tm_year := year;
     Index.tm_mon := month;
     Index.get_post := fun _ => "<article id=" +:+ name +:+ "></article>" |}.

Definition rebuild (now : string) (files : list Index.LocalPost)
  : option (list Index.File) :=
  Index.rebuild options header "Staff" "News" strftime ".html" ".." now files.

(** A backup limited to the window [0, 150]. *)
Definition until_150_options : Options :=
  {| likes := false; period := Some (0, 150); request := ∅;
     no_reblog := false; only_reblog := false; jq_filter := None;
     no_post_clobber := false; count := None; skip := 0;
     reverse_month := true; reverse_index := true; posts_per_page := 50;
     tag_index := false; dirs := false |}.

(** A backup of the likes. *)
Definition likes_options : Options :=
  {| likes := true; period := None; request := ∅; no_reblog := false;
     only_reblog := false; jq_filter := None; no_post_clobber := false;
     count := None; skip := 0; reverse_month := true; reverse_index := true;
     posts_per_page := 50; tag_index := false; dirs := false |}.

(** Two snapshots of which the one with the higher file number is older. *)
Definition small_archive : list Api.Snapshot :=
  [snap (post 3 200); snap (post 5 100)].

(** 120 snapshots, post [k] dated [1000 + k]. *)
Definition long_archive : list Api.Snapshot :=
  (fun k => snap (post (Z.of_nat k) (1000 + Z.of_nat k))) <$> seq 1 120.

(** A backup limited to the window [0, 1121], which holds all of them. *)
Definition until_1121_options : Options :=
  {| likes := false; period := Some (0, 1121); request := ∅;
     no_reblog := false; only_reblog := false; jq_filter := None;
     no_post_clobber := false; count := None; skip := 0;
     reverse_month := true; reverse_index := true; posts_per_page := 50;
     tag_index := false; dirs := false |}.

End Demo.

(** * Properties *)

(** ** [sorted] *)
Section SortedFacts.
Context {A K : Type} (ltb : K -> K -> bool) (key : A -> K).
Hypothesis ltb_asym : forall a b, ltb a b = true -> ltb b a = false.
Hypothesis ltb_negtrans :
  forall a b c, ltb a b = false -> ltb b c = false -> ltb a c = false.

Local Abbreviation ordered := (Py.ordered ltb key).

Lemma ordered_trans reverse x y z :
  ordered reverse x y -> ordered reverse y z -> ordered reverse x z.
Proof using ltb_negtrans.
  unfold Py.ordered, keeps. destruct reverse; eauto.
Qed.

Lemma insert_perm reverse x l : insert ltb key reverse x l ≡ₚ x :: l.
Proof.
  induction l as [|y l IH]; simpl; [done|].
  destruct (keeps _ _ _ _ _); [|done].
  rewrite IH. apply perm_swap.
Qed.

Lemma sorted_perm reverse l : sorted ltb key reverse l ≡ₚ l.
Proof.
  induction l as [|x l IH]; simpl; [done|].
  unfold sorted in *. simpl. by rewrite insert_perm, IH.
Qed.

Lemma insert_sorted reverse x l :
  StronglySorted (ordered reverse) l ->
  StronglySorted (ordered reverse) (insert ltb key reverse x l).
Proof using ltb_asym ltb_negtrans.
  induction 1 as [|y l Hl IH Hy]; simpl.
  - repeat constructor.
  - destruct (keeps ltb key reverse y x) eqn:E.
    + constructor; [done|].
      rewrite insert_perm. constructor; [|done].
      unfold ordered, keeps in *. destruct reverse; eauto.
    + constructor; [by constructor|].
      constructor; [done|].
      eapply Forall_impl; [exact Hy|].
      intros z Hz. by eapply ordered_trans.
Qed.

Lemma sorted_sorted reverse l :
  StronglySorted (ordered reverse) (sorted ltb key reverse l).
Proof using ltb_asym ltb_negtrans.
  induction l as [|x l IH]; [constructor|].
  by apply insert_sorted.
Qed.

(** Two listings of the same elements sort to the same list when no two
    of them have equivalent keys. *)
Lemma sorted_unique reverse l1 l2 :
  l1 ≡ₚ l2 ->
  (forall x y, x ∈ l1 -> y ∈ l1 ->
     ltb (key x) (key y) = false -> ltb (key y) (key x) = false -> x = y) ->
  sorted ltb key reverse l1 = sorted ltb key reverse l2.
Proof using ltb_asym ltb_negtrans.
  intros Hp Hinj.
  apply (StronglySorted_unique_strong (ordered reverse)).
  - intros x y Hx Hy Hxy Hyx.
    rewrite sorted_perm in Hx. rewrite sorted_perm, <-Hp in Hy.
    unfold ordered, keeps in *. destruct reverse; eauto using eq_sym.
  - apply sorted_sorted.
  - apply sorted_sorted.
  - by rewrite !sorted_perm.
Qed.

(** A list that is already in order is left as it is. *)
Lemma sorted_id reverse l :
  StronglySorted (ordered reverse) l -> sorted ltb key reverse l = l.
Proof.
  induction 1 as [|x l Hl IH Hx]; [done|].
  unfold sorted in *. simpl. rewrite IH.
  destruct Hx as [|y l Hy _]; [done|]. simpl.
  unfold ordered in Hy. by rewrite Hy.
Qed.
End SortedFacts.

Lemma Zltb_asym (a b : Z) : (a <? b) = true -> (b <? a) = false.
Proof. lia. Qed.

Lemma Zltb_negtrans (a b c : Z) :
  (a <? b) = false -> (b <? c) = false -> (a <? c) = false.
Proof. lia. Qed.

Lemma pair_ltb_asym (a b : Z * Z) : pair_ltb a b = true -> pair_ltb b a = false.
Proof. unfold pair_ltb. destruct a, b; simpl. lia. Qed.

Lemma pair_ltb_negtrans (a b c : Z * Z) :
  pair_ltb a b = false -> pair_ltb b c = false -> pair_ltb a c = false.
Proof. unfold pair_ltb. destruct a, b, c; simpl. lia. Qed.

Lemma StronglySorted_weaken {A} (R1 R2 : A -> A -> Prop) (l : list A) :
  (forall a b, R1 a b -> R2 a b) -> StronglySorted R1 l -> StronglySorted R2 l.
Proof.
  intros HR. induction 1 as [|x l Hl IH Hx]; constructor; [done|].
  eapply Forall_impl; eauto.
Qed.

(** Sorting by an integer key with [reverse=True] gives a permutation in
    descending key order. *)
Lemma sorted_descending {A} (key : A -> Z) (l : list A) :
  StronglySorted (fun a b => key b <= key a) (sorted Z.ltb key true l).
Proof.
  eapply StronglySorted_weaken;
    [|apply (sorted_sorted Z.ltb key Zltb_asym Zltb_negtrans true)].
  unfold Py.ordered, keeps. intros a b ?. lia.
Qed.

(** ** [get_api_url] *)

(** C10: an account name that contains ['/'] or ['\'] or is ['.'] or ['..']
    makes [get_api_url] raise [ValueError], and [backup] then ends with that
    error before any request is sent or any answer is read. For any other
    name the domain is the name followed by ['.tumblr.com'] when it has no
    dot and the name itself when it has one, and the URL is built on that
    domain. *)
Theorem get_api_url_validates (options : Options) (account : string) :
  (contains "/" account = true \/ contains "\" account = true
   \/ account = "." \/ account = ".." ->
   (get_api_url options account).2 = inl ValueError
   /\ forall ident_max on_disk fuel prev_archive answers,
        let r := Backup.backup options ident_max on_disk fuel account
                   prev_archive answers in
        r.1 = Some (Backup.Crashed ValueError)
        /\ Backup.events r.2 = [] /\ Backup.answers r.2 = answers)
  /\ (contains "/" account = false -> contains "\" account = false ->
      account <> "." -> account <> ".." ->
      let blog_name := if contains "." account then account
                       else account +:+ ".tumblr.com" in
      get_api_url options account
      = (blog_name,
         inr ("https://api.tumblr.com/v2/blog/" +:+ blog_name +:+ "/"
              +:+ (if likes options then "likes" else "posts")))).
Proof.
  split.
  - intros Hbad.
    assert (get_api_url options account = (account, inl ValueError)) as E.
    { unfold get_api_url.
      destruct Hbad as [->|[->|[->| ->]]];
        repeat (simpl; try case_bool_decide;
                try destruct (contains _ account); try done). }
    split; [by rewrite E|].
    intros. unfold Backup.backup in r. subst r. by rewrite E.
  - intros H1 H2 H3 H4. unfold get_api_url. rewrite H1, H2. simpl.
    rewrite !bool_decide_eq_false_2 by done. simpl.
    by destruct (contains "." account).
Qed.

Lemma get_api_url_validates_witness :
  (get_api_url Demo.options "evil/name").2 = inl ValueError
  /\ get_api_url Demo.options "staff"
     = ("staff.tumblr.com",
        inr "https://api.tumblr.com/v2/blog/staff.tumblr.com/posts")
  /\ get_api_url Demo.options "blog.example.org"
     = ("blog.example.org",
        inr "https://api.tumblr.com/v2/blog/blog.example.org/posts").
Proof.
  split; [|split].
  - apply (get_api_url_validates Demo.options "evil/name"). by left.
  - by apply (get_api_url_validates Demo.options "staff").
  - by apply (get_api_url_validates Demo.options "blog.example.org").
Defined.

(** ** The filter chain of [_backup] *)
Section BackupFacts.
Import Api Backup.
Context (options : Options) (ident_max : option Z) (on_disk : Post -> bool).

Local Abbreviation process := (Backup.process options ident_max on_disk).
Local Abbreviation examine := (Backup.examine options ident_max on_disk).
Local Abbreviation content_tests := (Backup.content_tests options on_disk).

(** Processing a list in two parts. *)
Lemma process_app dashboard oldest_date st l1 l2 :
  process dashboard oldest_date st (l1 ++ l2)
  = match process dashboard oldest_date st l1 with
    | (Return true oldest_date', st') => process dashboard oldest_date' st' l2
    | r => r
    end.
Proof.
  revert oldest_date st.
  induction l1 as [|p l1 IH]; intros oldest_date st; simpl; [done|].
  destruct (examine dashboard p); try done; [by rewrite IH .. |].
  destruct (limit_reached _ _); [done|]. by rewrite IH.
Qed.

(** The jobs added by a batch are posts of the batch, in processing order,
    and each of them passed every test. *)
Lemma process_queued dashboard oldest_date st l b st' :
  process dashboard oldest_date st l = (b, st') ->
  exists saved,
    queued st' = queued st ++ saved
    /\ saved `sublist_of` l
    /\ Forall (fun p => examine dashboard p = Save) saved.
Proof.
  revert oldest_date st.
  induction l as [|p l IH]; intros oldest_date st; simpl.
  - intros [= <- <-]. exists []. by rewrite app_nil_r.
  - destruct (examine dashboard p) eqn:E.
    + intros [= <- <-]. exists []. rewrite app_nil_r.
      split; [done|]. split; [apply sublist_nil_l|done].
    + intros [= <- <-]. exists []. rewrite app_nil_r.
      split; [done|]. split; [apply sublist_nil_l|done].
    + intros H. destruct (IH _ _ H) as (saved & ? & ? & ?).
      exists saved. split; [done|]. split; [by apply sublist_cons|done].
    + intros H. destruct (IH _ _ H) as (saved & ? & ? & ?).
      exists saved. split; [done|]. split; [by apply sublist_cons|done].
    + destruct (limit_reached _ _).
      * intros [= <- <-]. exists [p]. simpl.
        split; [done|]. split; [|by repeat constructor].
        apply sublist_skip, sublist_nil_l.
      * intros H. destruct (IH _ _ H) as (saved & Hq & ? & ?).
        exists (p :: saved). simpl in Hq. rewrite <-app_assoc in Hq.
        split; [done|]. split; [by apply sublist_skip|by constructor].
Qed.

(** A batch that is processed to its end reports the date of its last
    post. *)
Lemma process_oldest dashboard oldest_date st l oldest_date' st' :
  process dashboard oldest_date st l = (Return true oldest_date', st') ->
  oldest_date' = match last l with
                 | Some p => Some (date_of options p)
                 | None => oldest_date
                 end.
Proof.
  revert oldest_date st.
  induction l as [|p l IH]; intros oldest_date st; simpl.
  - by intros [= <- <-].
  - intros H.
    assert (process dashboard (Some (date_of options p)) st l
              = (Return true oldest_date', st')
            \/ process dashboard (Some (date_of options p)) (unmatched st) l
              = (Return true oldest_date', st')
            \/ process dashboard (Some (date_of options p))
                 (enqueue p st) l = (Return true oldest_date', st'))
      as [H'|[H'|H']].
    { destruct (examine dashboard p); try done; auto.
      destruct (limit_reached _ _); [done|auto]. }
    all: apply IH in H'; rewrite H', last_cons; by destruct (last l).
Qed.

Lemma last_not_current_iff (t : list TrailItem) :
  last_not_current t = true
  <-> exists item, last t = Some item /\ is_current_item item = None.
Proof.
  unfold last_not_current. destruct (last t) as [item|].
  - destruct (is_current_item item) eqn:E; split; try done.
    + intros (item' & [= <-] & ?). congruence.
    + eauto.
  - split; [done|]. by intros (? & [=] & _).
Qed.

Lemma reblog_iff (p : Post) : post_is_reblog p = true <-> Spec.is_reblog p.
Proof.
  unfold post_is_reblog, Spec.is_reblog.
  set (src := bool_decide _ || bool_decide _).
  assert (src = true <-> is_Some (reblogged_from_name p)
                         \/ is_Some (reblogged_root_name p)) as Hsrc.
  { unfold src. by rewrite orb_true_iff, !bool_decide_eq_true. }
  destruct src.
  - assert (is_Some (reblogged_from_name p)
            \/ is_Some (reblogged_root_name p)) as Hs by by apply Hsrc.
    split.
    + intros H. left. split; [done|].
      destruct (trail p) as [[|it t]|]; [by eauto| |done].
      eexists. split; [done|]. right. by apply last_not_current_iff.
    + intros [(_ & t & -> & [->|Hu])|[Hn _]]; [done| |done].
      destruct t; [done|]. by apply last_not_current_iff.
  - assert (~ (is_Some (reblogged_from_name p)
               \/ is_Some (reblogged_root_name p))) as Hs.
    { intros H. by apply Hsrc in H. }
    split.
    + intros H. right. split; [done|].
      destruct (trail p) as [[|it t]|]; [done| |done].
      eexists. split; [done|]. split; [done|]. by apply last_not_current_iff.
    + intros [[? _]|(_ & t & -> & Hne & Hu)]; [done|].
      destruct t; [done|]. by apply last_not_current_iff.
Qed.

End BackupFacts.

Section VerdictFacts.
Import Api Backup.
Context (options : Options) (ident_max : option Z) (on_disk : Post -> bool).

Lemma examine_save dashboard p :
  examine options ident_max on_disk dashboard p = Save ->
  incremental_test options ident_max p = false
  /\ period_test options dashboard p = None
  /\ content_tests options on_disk p = Save.
Proof.
  unfold examine. destruct (incremental_test _ _ _); [done|].
  destruct (period_test options dashboard p) as [v|] eqn:E; [|done].
  intros ->. unfold period_test in E.
  destruct (period options) as [[p_start p_stop]|]; [|done].
  repeat case_match; naive_solver.
Qed.

Lemma content_tests_save p :
  content_tests options on_disk p = Save ->
  request_allows options p = true
  /\ (no_reblog options = true -> post_is_reblog p = false)
  /\ (only_reblog options = true -> post_is_reblog p = true).
Proof.
  unfold content_tests.
  destruct (request_allows options p); simpl; [|done].
  destruct (no_reblog options), (only_reblog options), (post_is_reblog p);
    simpl; try done; naive_solver.
Qed.

(** The tests after the period test never stop or fail a batch. *)
Lemma content_tests_cases p :
  content_tests options on_disk p = Skip
  \/ content_tests options on_disk p = Unmatched
  \/ content_tests options on_disk p = Save.
Proof. unfold content_tests. repeat case_match; auto. Qed.

End VerdictFacts.

(** C9: the classification computed by the filter chain is the one the
    specification describes; a post that reaches the reblog test is skipped
    under [no_reblog] when it is a reblog and under [only_reblog] when it is
    not; so every job a batch adds is a non-reblog under [no_reblog] and a
    reblog under [only_reblog]. *)
Theorem reblog_filter (options : Options) (ident_max : option Z)
    (on_disk : Post -> bool) :
  (forall p, Backup.post_is_reblog p = true <-> Spec.is_reblog p)
  /\ (forall p, Backup.request_allows options p = true ->
        (no_reblog options = true -> Spec.is_reblog p ->
         Backup.content_tests options on_disk p = Backup.Skip)
        /\ (only_reblog options = true -> ~ Spec.is_reblog p ->
            Backup.content_tests options on_disk p = Backup.Skip))
  /\ (forall dashboard oldest_date st l b st',
        Backup.process options ident_max on_disk dashboard oldest_date st l
        = (b, st') ->
        exists saved,
          Backup.queued st' = Backup.queued st ++ saved
          /\ saved `sublist_of` l
          /\ Forall (fun p =>
                 (no_reblog options = true -> ~ Spec.is_reblog p)
                 /\ (only_reblog options = true -> Spec.is_reblog p)) saved).
Proof.
  split; [apply reblog_iff|]. split.
  - intros p Hreq. unfold Backup.content_tests. rewrite Hreq. simpl. split.
    + intros -> Hr. apply reblog_iff in Hr. by rewrite Hr.
    + intros -> Hr. rewrite <-reblog_iff in Hr.
      destruct (Backup.post_is_reblog p); [done|].
      by destruct (no_reblog options).
  - intros dashboard oldest_date st l b st' H.
    destruct (process_queued _ _ _ _ _ _ _ _ _ H) as (saved & Hq & Hs & Hall).
    exists saved. split; [done|]. split; [done|].
    eapply Forall_impl; [exact Hall|]. intros p Hp. simpl in Hp.
    apply examine_save in Hp as (_ & _ & Hc).
    apply content_tests_save in Hc as (_ & Hno & Honly).
    rewrite <-reblog_iff. split.
    + intros Hn. rewrite (Hno Hn). done.
    + done.
Qed.

Lemma reblog_filter_witness :
  Backup.content_tests Demo.no_reblog_options Demo.nothing_on_disk
    (Demo.reblog 7 150) = Backup.Skip.
Proof.
  destruct (reblog_filter Demo.no_reblog_options None Demo.nothing_on_disk)
    as (_ & H & _).
  destruct (H (Demo.reblog 7 150) eq_refl) as [Hskip _].
  apply Hskip; [reflexivity|].
  left. split; [left; by eexists|]. exists []. split; [reflexivity|by left].
Defined.

(** C8: with a period window [(p_start, p_stop)], [p_start <= p_stop], a
    post that gets past the incremental test and is dated after [p_stop]
    raises [RuntimeError] when the blog is not dashboard-only and is passed
    over without any effect when it is; a post dated before [p_start] ends
    the batch with [res = False]. The loop turns the exception into a crash
    of the run and [res = False] into a successful end. *)
Theorem period_window (options : Options) (ident_max : option Z)
    (on_disk : Post -> bool) (p_start p_stop : Z) (p : Post) :
  period options = Some (p_start, p_stop) ->
  p_start <= p_stop ->
  Backup.incremental_test options ident_max p = false ->
  let date := Api.date_of options p in
  let process := Backup.process options ident_max on_disk in
  (p_stop < date -> forall oldest_date st rest,
     process false oldest_date st (p :: rest)
     = (Backup.Raise RuntimeError, st)
     /\ process true oldest_date st (p :: rest)
        = process true (Some date) st rest)
  /\ (date < p_start -> forall dashboard oldest_date st rest,
        process dashboard oldest_date st (p :: rest)
        = (Backup.Return false (Some date), st))
  /\ (forall c1 resp page st,
        (exists c2, Backup.settle options c1 resp page
                      (Backup.Raise RuntimeError) st
                    = Backup.Halt (Backup.Crashed RuntimeError) c2
                    /\ Backup.progress c2 = st)
        /\ (forall oldest_date,
              exists c2, Backup.settle options c1 resp page
                           (Backup.Return false oldest_date) st
                         = Backup.Halt Backup.Done c2
                         /\ Backup.progress c2 = st)).
Proof.
  intros Hperiod Hwin Hinc date process. subst process.
  split; [|split].
  - intros Hlate oldest_date st rest. simpl.
    unfold Backup.examine, Backup.period_test. rewrite Hinc, Hperiod.
    fold date. by rewrite (proj2 (Z.ltb_lt _ _) Hlate).
  - intros Hearly dashboard oldest_date st rest. simpl.
    unfold Backup.examine, Backup.period_test. rewrite Hinc, Hperiod.
    fold date.
    rewrite (proj2 (Z.ltb_ge _ _)) by lia.
    by rewrite (proj2 (Z.ltb_lt _ _) Hearly).
  - intros c1 resp page st. split; [|intros oldest_date]; by eexists.
Qed.

Lemma period_window_witness :
  Backup.process Demo.period_options None Demo.nothing_on_disk false None
    Backup.fresh [Demo.post 9 400; Demo.post 8 200]
  = (Backup.Raise RuntimeError, Backup.fresh)
  /\ Backup.process Demo.period_options None Demo.nothing_on_disk true None
       Backup.fresh [Demo.post 9 400]
     = (Backup.Return true (Some 400), Backup.fresh)
  /\ Backup.process Demo.period_options None Demo.nothing_on_disk false None
       Backup.fresh [Demo.post 2 50; Demo.post 1 40]
     = (Backup.Return false (Some 50), Backup.fresh).
Proof.
  assert (100 <= 300) as Hwin by lia.
  destruct (period_window Demo.period_options None Demo.nothing_on_disk
              100 300 (Demo.post 9 400) eq_refl Hwin eq_refl) as (Hlate & _).
  destruct (period_window Demo.period_options None Demo.nothing_on_disk
              100 300 (Demo.post 2 50) eq_refl Hwin eq_refl) as (_ & Hearly & _).
  assert (300 < Api.date_of Demo.period_options (Demo.post 9 400)) as H1
    by reflexivity.
  assert (Api.date_of Demo.period_options (Demo.post 2 50) < 100) as H2
    by reflexivity.
  split; [|split].
  - apply (Hlate H1).
  - destruct (Hlate H1 None Backup.fresh []) as [_ ->]. reflexivity.
  - apply (Hearly H2).
Defined.

(** C4, as amended: [_backup] runs the filter chain over a permutation of
    the batch in descending order of the sort key, which is the like time in
    likes mode (the effective timestamp there) and the post id in posts
    mode. *)
Theorem batch_sorted_by_key (options : Options) (ident_max : option Z)
    (on_disk : Post -> bool) (dashboard : bool) (posts : list Post)
    (st : Backup.Progress) :
  exists l,
    l ≡ₚ posts
    /\ StronglySorted
         (fun a b => Backup.sort_key options b <= Backup.sort_key options a) l
    /\ Backup._backup options ident_max on_disk dashboard posts st
       = Backup.process options ident_max on_disk dashboard None st l
    /\ (if likes options then Spec.newest_first options l
        else StronglySorted (fun a b => id b <= id a) l).
Proof.
  exists (sorted Z.ltb (Backup.sort_key options) true posts).
  split; [apply sorted_perm|]. split; [apply sorted_descending|].
  split; [done|].
  pose proof (sorted_descending (Backup.sort_key options) posts) as H.
  unfold Spec.newest_first, Spec.effective_timestamp, Backup.sort_key in *.
  by destruct (likes options).
Qed.

(** C4 as stated fails in posts mode: of two posts, the one with the higher
    id and the older timestamp is processed first. *)
Lemma batch_sorted_by_time_counterexample :
  ~ exists l,
      l ≡ₚ [Demo.post 3 200; Demo.post 5 100]
      /\ Spec.newest_first Demo.options l
      /\ Backup._backup Demo.options None Demo.nothing_on_disk false
           [Demo.post 3 200; Demo.post 5 100] Backup.fresh
         = Backup.process Demo.options None Demo.nothing_on_disk false None
             Backup.fresh l.
Proof.
  intros (l & Hp & Hs & He).
  symmetry in Hp. apply Permutation_length_2_inv in Hp as [-> | ->].
  - vm_compute in He. discriminate He.
  - apply StronglySorted_inv in Hs as [_ Hs].
    apply Forall_inv in Hs. vm_compute in Hs. by apply Hs.
Qed.

Section IncrementalFacts.
Import Api Backup.
Context (options : Options) (M : Z) (on_disk : Post -> bool).

Local Abbreviation process := (Backup.process options (Some M) on_disk).

(** The first post at or below the mark, and the posts in front of it. *)
Lemma first_at_or_below (l : list Post) :
  Exists (fun q => sort_key options q <= M) l ->
  exists pre p rest,
    l = pre ++ p :: rest
    /\ Forall (fun q => M < sort_key options q) pre
    /\ sort_key options p <= M.
Proof.
  induction l as [|q l IH]; [by intros ?%Exists_nil|].
  intros H. destruct (decide (sort_key options q <= M)) as [Hq|Hq].
  - by exists [], q, l.
  - apply Exists_cons in H as [?|H]; [done|].
    destruct (IH H) as (pre & p & rest & -> & ? & ?).
    exists (q :: pre), p, rest. split; [done|].
    split; [constructor; [lia|done]|done].
Qed.

Lemma process_at_mark dashboard oldest_date st p rest :
  sort_key options p <= M ->
  process dashboard oldest_date st (p :: rest)
  = (Return false (Some (date_of options p)), st).
Proof.
  intros Hp. simpl. unfold examine, incremental_test.
  by rewrite (proj2 (Z.leb_le _ _) Hp).
Qed.

(** Without a period window and a post limit nothing but the mark ends a
    batch early. *)
Lemma process_unbounded dashboard oldest_date st l :
  period options = None -> count options = None ->
  Forall (fun q => M < sort_key options q) l ->
  exists oldest_date' st',
    process dashboard oldest_date st l = (Return true oldest_date', st').
Proof.
  intros Hperiod Hcount Hl. revert oldest_date st.
  induction Hl as [|q l Hq _ IH]; intros oldest_date st; simpl; [by eauto|].
  unfold examine, incremental_test, period_test.
  rewrite (proj2 (Z.leb_gt _ _) Hq), Hperiod.
  destruct (content_tests_cases options on_disk q) as [-> | [-> | ->]];
    try apply IH.
  unfold limit_reached. rewrite Hcount. apply IH.
Qed.

(** The only exception of the filter chain is the one of the period test. *)
Lemma examine_fatal ident_max dashboard q e :
  examine options ident_max on_disk dashboard q = Fatal e ->
  e = RuntimeError /\ period options <> None.
Proof.
  unfold examine. destruct (incremental_test _ _ _); [done|].
  unfold period_test.
  destruct (period options) as [[p_start p_stop]|].
  - destruct (p_stop <? date_of options q).
    + destruct dashboard; [done|]. by intros [= <-].
    + destruct (date_of options q <? p_start); [done|].
      by destruct (content_tests_cases options on_disk q) as [-> | [-> | ->]].
  - by destruct (content_tests_cases options on_disk q) as [-> | [-> | ->]].
Qed.

Lemma process_raise ident_max dashboard oldest_date st l e st' :
  Backup.process options ident_max on_disk dashboard oldest_date st l
  = (Raise e, st') ->
  e = RuntimeError /\ period options <> None.
Proof.
  revert oldest_date st.
  induction l as [|q l IH]; intros oldest_date st; simpl; [done|].
  destruct (examine options ident_max on_disk dashboard q) eqn:E;
    try done; eauto.
  - intros [= <- <-]. by eapply examine_fatal.
  - destruct (limit_reached _ _); [done|]. eauto.
Qed.

End IncrementalFacts.

(** C2: when the page fetched in a pass of the loop holds a post whose key
    is at most the recorded maximum [M], the loop never goes on to another
    page: the run ends there, successfully unless the period test raised its
    error on an earlier post. Every job the pass adds is a post processed
    before the first post [p] with key at most [M], so its key is above [M].
    When the posts in front of [p] are processed to their end (as they
    always are without a period window and a post limit), the batch ends at
    [p] and the run ends successfully. *)
Theorem incremental_stop (options : Options) (M : Z) (on_disk : Post -> bool)
    (c : Backup.Config) (resp : Api.Resp) (page : list Post) :
  let out := Api.apiparse options (Backup.api c) MAX_POSTS (Backup.i c)
               (Backup.before c) (Backup.answers c) in
  Api.result out = Api.Returned (Some resp) ->
  (if likes options then Api.liked_posts resp else Api.posts resp)
  = Some page ->
  Exists (fun q => Backup.sort_key options q <= M) page ->
  exists r c' saved pre p rest,
    Backup.iteration options (Some M) on_disk c = Backup.Halt r c'
    /\ (r = Backup.Done
        \/ (r = Backup.Crashed RuntimeError /\ period options <> None))
    /\ sorted Z.ltb (Backup.sort_key options) true page = pre ++ p :: rest
    /\ Forall (fun q => M < Backup.sort_key options q) pre
    /\ Backup.sort_key options p <= M
    /\ Backup.queued (Backup.progress c')
       = Backup.queued (Backup.progress c) ++ saved
    /\ saved `sublist_of` pre
    /\ (forall oldest_date st1,
          Backup.process options (Some M) on_disk
            (Api.is_dashboard (Api.parser out)) None (Backup.progress c) pre
          = (Backup.Return true oldest_date, st1) ->
          r = Backup.Done /\ Backup.progress c' = st1)
    /\ (period options = None -> count options = None ->
        r = Backup.Done
        /\ exists oldest_date,
             Backup.process options (Some M) on_disk
               (Api.is_dashboard (Api.parser out)) None (Backup.progress c) pre
             = (Backup.Return true oldest_date, Backup.progress c')).
Proof.
  intros out Hres Hpage Hex.
  assert (Exists (fun q => Backup.sort_key options q <= M)
            (sorted Z.ltb (Backup.sort_key options) true page)) as Hex'.
  { by rewrite sorted_perm. }
  destruct (first_at_or_below options M _ Hex')
    as (pre & p & rest & Hsplit & Hpre & Hp).
  assert (page <> []) as Hne by (intros ->; by apply Exists_nil in Hex).
  unfold Backup.iteration. fold out. rewrite Hres, Hpage.
  destruct page as [|q0 page0]; [done|]. set (page := q0 :: page0) in *.
  unfold Backup._backup. rewrite Hsplit, process_app.
  set (dash := Api.is_dashboard (Api.parser out)).
  destruct (Backup.process options (Some M) on_disk dash None
              (Backup.progress c) pre) as [b1 st1] eqn:Hpre_run.
  destruct (process_queued _ _ _ _ _ _ _ _ _ Hpre_run) as (saved & Hq & Hsub & _).
  assert (period options = None -> count options = None ->
          exists od', b1 = Backup.Return true od') as Hfree.
  { intros Hperiod Hcount.
    destruct (process_unbounded options M on_disk dash None
                (Backup.progress c) pre Hperiod Hcount Hpre) as (od' & st' & E).
    rewrite Hpre_run in E. exists od'. congruence. }
  destruct b1 as [e|[] od]; cbn beta iota.
  - destruct (process_raise _ _ _ _ _ _ _ _ _ Hpre_run) as [-> Hperiod].
    eexists _, _, saved, pre, p, rest.
    split; [done|]. split; [by right|]. do 3 (split; [done|]).
    simpl. split; [done|]. split; [done|]. split; [|done].
    intros od' st1' H. by rewrite Hpre_run in H.
  - rewrite process_at_mark by done. simpl.
    eexists _, _, saved, pre, p, rest.
    split; [done|]. split; [by left|]. do 3 (split; [done|]).
    simpl. split; [done|]. split; [done|]. split.
    + intros od' st1' H. rewrite Hpre_run in H. by injection H as _ <-.
    + intros _ _. split; [done|]. by exists od.
  - eexists _, _, saved, pre, p, rest.
    split; [done|]. split; [by left|]. do 3 (split; [done|]).
    simpl. split; [done|]. split; [done|].
    split; [intros od' st1' H; by rewrite Hpre_run in H|].
    intros Hperiod Hcount. by destruct (Hfree Hperiod Hcount).
Qed.

Lemma incremental_stop_witness :
  exists c',
    Backup.iteration Demo.options (Some 10) Demo.nothing_on_disk
      (Demo.start Demo.public_parser None
         [Demo.answer_of [Demo.post 12 500; Demo.post 9 400; Demo.post 11 450]])
    = Backup.Halt Backup.Done c'
    /\ Backup.queued (Backup.progress c')
       = [Demo.post 12 500; Demo.post 11 450].
Proof.
  destruct (incremental_stop Demo.options 10 Demo.nothing_on_disk
              (Demo.start Demo.public_parser None
                 [Demo.answer_of
                    [Demo.post 12 500; Demo.post 9 400; Demo.post 11 450]])
              (Demo.resp_of
                 [Demo.post 12 500; Demo.post 9 400; Demo.post 11 450])
              [Demo.post 12 500; Demo.post 9 400; Demo.post 11 450]
              eq_refl eq_refl)
    as (r & c' & saved & pre & p & rest & Hit & _ & _ & _ & _ & _ & _ & _ & Hr).
  { apply Exists_cons_tl, Exists_cons_hd. by vm_compute. }
  destruct (Hr eq_refl eq_refl) as [-> _].
  exists c'. split; [exact Hit|].
  vm_compute in Hit. by injection Hit as <-.
Defined.

(** ** The live [ApiParser] *)
Section ApiFacts.
Import Api.
Context (options : Options).

Lemma backoff_sleeps req first n :
  Spec.sleeps (Spec.backoff req first n)
  = (fun k => first * 2 ^ Z.of_nat k) <$> seq 0 n.
Proof.
  revert first. induction n as [|n IH]; intros first; simpl; [done|].
  rewrite IH. f_equal; [lia|].
  rewrite <-fmap_S_seq, <-list_fmap_compose.
  apply list_fmap_ext. intros _ k _. simpl.
  rewrite Nat2Z.inj_succ, Z.pow_succ_r by lia. lia.
Qed.

Lemma backoff_requests req first n :
  Spec.requests (Spec.backoff req first n) = replicate n req.
Proof.
  revert first. induction n as [|n IH]; intros first; simpl; [done|].
  by rewrite IH.
Qed.

(** Throttled answers in front of the others add retries and change nothing
    else. *)
Lemma poll_throttled req sleep_dur ds answers :
  Forall (fun doc => status doc = 429) ds ->
  poll req sleep_dur ((Some <$> ds) ++ answers)
  = let '(tr, r, rest) :=
      poll req (sleep_dur * 2 ^ Z.of_nat (length ds)) answers in
    (Spec.backoff req sleep_dur (length ds) ++ tr, r, rest).
Proof.
  intros Hds. revert sleep_dur.
  induction Hds as [|doc ds Hdoc _ IH]; intros sleep_dur.
  - simpl. rewrite Z.mul_1_r. by destruct (poll _ _ _) as [[??]?].
  - cbn [fmap list_fmap app poll length Spec.backoff].
    rewrite Hdoc. simpl (429 =? 429). cbn iota. rewrite IH.
    replace (sleep_dur * 2 * 2 ^ Z.of_nat (length ds))
      with (sleep_dur * 2 ^ Z.of_nat (S (length ds))).
    2:{ rewrite Nat2Z.inj_succ, Z.pow_succ_r by lia. lia. }
    by destruct (poll _ _ _) as [[??]?].
Qed.

Lemma poll_first req sleep_dur answers :
  exists tr, (poll req sleep_dur answers).1.1 = Sent req :: tr.
Proof.
  destruct answers as [|[doc|] rest]; simpl; eauto.
  destruct (status doc =? 429); simpl; eauto.
  destruct (poll _ _ _) as [[??]?]. simpl. eauto.
Qed.

(** The first sleep matters only when the next answer is throttled. *)
Lemma poll_unthrottled req d1 d2 answers :
  match answers with
  | Some doc :: _ => status doc <> 429
  | _ => True
  end ->
  poll req d1 answers = poll req d2 answers.
Proof.
  destruct answers as [|[doc|] rest]; simpl; try done.
  intros Hdoc. by rewrite (proj2 (Z.eqb_neq _ _) Hdoc).
Qed.

Lemma live_throttled depth self count start before ds answers :
  Forall (fun doc => status doc = 429) ds ->
  match answers with
  | Some doc :: _ => status doc <> 429
  | _ => True
  end ->
  live options (S depth) self count start before ((Some <$> ds) ++ answers)
  = after
      (Spec.backoff (make_request self count start before) 30 (length ds))
      (live options (S depth) self count start before answers).
Proof.
  intros Hds Hnext. cbn [live].
  rewrite poll_throttled by done.
  rewrite (poll_unthrottled _ (30 * 2 ^ Z.of_nat (length ds)) 30) by done.
  destruct (poll _ 30 answers) as [[tr polled] rest].
  unfold after. destruct polled as [| |doc]; simpl; try done.
  repeat case_match; simpl; try done; by rewrite ?app_assoc.
Qed.

End ApiFacts.

(** C5: when the remote side answers a live request with status 429 some
    number of times, [apiparse] sends the very same request again after each
    of them, sleeping 30, 60, 120, ... seconds in between, and then goes on
    with the first other answer exactly as if it had come at once: the same
    result, parser state and remaining answers. As long as only throttled
    answers have come it has not returned. *)
Theorem throttling_backoff (options : Options) (self : Api.ApiParser)
    (count start : nat) (before : option Z) (ds : list Api.Doc)
    (answers : list (option Api.Doc)) :
  Api.prev_resps self = None ->
  Forall (fun doc => Api.status doc = 429) ds ->
  match answers with
  | Some doc :: _ => Api.status doc <> 429
  | _ => True
  end ->
  let req := Api.make_request self count start before in
  let retries := Spec.backoff req 30 (length ds) in
  Spec.sleeps retries = (fun k => 30 * 2 ^ Z.of_nat k) <$> seq 0 (length ds)
  /\ Spec.requests retries = replicate (length ds) req
  /\ Api.apiparse options self count start before ((Some <$> ds) ++ answers)
     = Api.after retries (Api.apiparse options self count start before answers)
  /\ (exists tr,
        Api.trace (Api.apiparse options self count start before answers)
        = Api.Sent req :: tr)
  /\ Api.result (Api.apiparse options self count start before (Some <$> ds))
     = Api.Pending.
Proof.
  intros Hlive Hds Hnext req retries.
  split; [apply backoff_sleeps|]. split; [apply backoff_requests|].
  unfold Api.apiparse. rewrite Hlive.
  split; [by apply live_throttled|]. split.
  - cbn [Api.live]. fold req.
    destruct (poll_first req 30 answers) as [tr Htr].
    destruct (Api.poll req 30 answers) as [[tr' polled] rest].
    simpl in Htr. subst tr'.
    destruct polled as [| |doc]; simpl; eauto.
    unfold Api.after. repeat case_match; simpl; eauto.
  - rewrite <-(app_nil_r (Some <$> ds)), live_throttled by done.
    reflexivity.
Qed.

Lemma throttling_backoff_witness :
  Api.apiparse Demo.options Demo.public_parser 50 0 None
    [Demo.refusal 429 []; Demo.refusal 429 []; Demo.refusal 429 [];
     Demo.answer_of [Demo.post 3 200]]
  = Api.after
      [Api.Sent (Api.make_request Demo.public_parser 50 0 None);
       Api.Slept 30;
       Api.Sent (Api.make_request Demo.public_parser 50 0 None);
       Api.Slept 60;
       Api.Sent (Api.make_request Demo.public_parser 50 0 None);
       Api.Slept 120]
      (Api.apiparse Demo.options Demo.public_parser 50 0 None
         [Demo.answer_of [Demo.post 3 200]]).
Proof.
  apply (throttling_backoff Demo.options Demo.public_parser 50 0 None
           [Api.Build_Doc 429 [] None; Api.Build_Doc 429 [] None;
            Api.Build_Doc 429 [] None]
           [Demo.answer_of [Demo.post 3 200]]).
  - reflexivity.
  - repeat constructor.
  - simpl. lia.
Defined.

(** ** The choice of the endpoint *)
Section EndpointFacts.
Import Api.
Context (options : Options).

Lemma poll_answer req sleep_dur answers tr doc rest :
  poll req sleep_dur answers = (tr, Answer doc, rest) -> Some doc ∈ answers.
Proof.
  revert sleep_dur tr.
  induction answers as [|[d|] answers IH]; intros sleep_dur tr; simpl;
    [done| |done].
  destruct (status d =? 429).
  - destruct (poll req (sleep_dur * 2) answers) as [[tr' r] rest'] eqn:E.
    intros [= _ -> ->]. right. by eapply IH.
  - intros [= _ -> _]. by left.
Qed.

Lemma poll_requests req sleep_dur answers :
  Forall (fun r => r = req) (Spec.requests (poll req sleep_dur answers).1.1).
Proof.
  revert sleep_dur.
  induction answers as [|[d|] answers IH]; intros sleep_dur; simpl;
    [by repeat constructor| |by repeat constructor].
  destruct (status d =? 429); [|by repeat constructor].
  specialize (IH (sleep_dur * 2)).
  destruct (poll req (sleep_dur * 2) answers) as [[tr' r] rest'].
  simpl in *. by constructor.
Qed.

(** A choice that has been made is kept. *)
Lemma live_sticky depth self count start before answers b :
  dashboard_only_blog self = Some b ->
  dashboard_only_blog
    (parser (live options depth self count start before answers)) = Some b.
Proof.
  intros Hb. destruct depth as [|depth]; [done|]. cbn [live].
  destruct (poll _ 30 answers) as [[tr polled] rest].
  destruct polled as [| |doc]; [done..|].
  rewrite Hb. unfold is_dashboard. rewrite Hb.
  rewrite bool_decide_eq_false_2 by done. cbn [andb].
  destruct (negb (status doc =? 200)); [done|].
  destruct b; repeat case_match; done.
Qed.

(** The dashboard endpoint is chosen only on the error signature. *)
Lemma live_switch depth self count start before answers :
  dashboard_only_blog self = None ->
  dashboard_only_blog
    (parser (live options depth self count start before answers))
  = Some true ->
  likes options = false
  /\ exists doc, Some doc ∈ answers /\ status doc = 404
                 /\ dashboard_signature doc = true.
Proof.
  intros Hn. destruct depth as [|depth]; [simpl; by rewrite Hn|]. cbn [live].
  destruct (poll _ 30 answers) as [[tr polled] rest] eqn:Hpoll.
  destruct polled as [| |doc]; cbn [parser]; [by rewrite Hn..|].
  apply poll_answer in Hpoll.
  destruct (negb (status doc =? 200)).
  - destruct (_ && _) eqn:Hcond.
    + intros _. repeat (apply andb_prop in Hcond as [Hcond ?]).
      split; [by apply negb_true_iff|].
      exists doc. split; [done|]. split; [lia|done].
    + cbn [parser]. by rewrite Hn.
  - unfold is_dashboard. rewrite Hn.
    rewrite bool_decide_eq_true_2 by done.
    repeat case_match; cbn [parser set_dashboard dashboard_only_blog]; done.
Qed.

(** Once the choice is made [apiparse] does not call itself, so the bound
    on the nesting is never reached. *)
Lemma live_decided depth self count start before answers :
  dashboard_only_blog self <> None ->
  live options (S depth) self count start before answers
  = live options 1 self count start before answers.
Proof.
  intros Hd. cbn [live].
  destruct (poll _ 30 answers) as [[tr polled] rest].
  destruct polled as [| |doc]; [done..|].
  rewrite (bool_decide_eq_false_2 (dashboard_only_blog self = None)); done.
Qed.

Lemma live_depth k self count start before answers :
  live options (2 + k) self count start before answers
  = live options 2 self count start before answers.
Proof.
  assert (forall d1 d2,
            (forall answers',
               live options d1 (set_dashboard self (Some true)) count start
                 None answers'
               = live options d2 (set_dashboard self (Some true)) count start
                   None answers') ->
            live options (S d1) self count start before answers
            = live options (S d2) self count start before answers) as Hstep.
  { intros d1 d2 Hrec. cbn [live].
    destruct (poll _ 30 answers) as [[tr polled] rest].
    destruct polled as [| |doc]; [done..|].
    destruct (negb (status doc =? 200)); [|done].
    destruct (_ && _); [|done]. by rewrite Hrec. }
  apply (Hstep (S k) 1%nat). intros answers'. by apply live_decided.
Qed.

Lemma is_dashboard_iff self :
  is_dashboard self = true <-> dashboard_only_blog self = Some true.
Proof. unfold is_dashboard. by destruct (dashboard_only_blog self) as [[]|]. Qed.

Lemma apiparse_sticky self count start before answers b :
  dashboard_only_blog self = Some b ->
  dashboard_only_blog
    (parser (apiparse options self count start before answers)) = Some b.
Proof.
  unfold apiparse. destruct (prev_resps self); [done|]. apply live_sticky.
Qed.

Lemma apiparse_stays_dashboard self count start before answers :
  is_dashboard self = true ->
  is_dashboard (parser (apiparse options self count start before answers))
  = true.
Proof. rewrite !is_dashboard_iff. apply apiparse_sticky. Qed.

End EndpointFacts.

Section TraceFacts.
Import Api Backup.
Context (options : Options).

Lemma requests_app tr1 tr2 :
  Spec.requests (tr1 ++ tr2) = Spec.requests tr1 ++ Spec.requests tr2.
Proof.
  induction tr1 as [|[r|d] tr1 IH]; simpl; [done| |done]. by rewrite IH.
Qed.

Lemma endpoints_app tr1 tr2 :
  Spec.endpoints (tr1 ++ tr2) = Spec.endpoints tr1 ++ Spec.endpoints tr2.
Proof. unfold Spec.endpoints. by rewrite requests_app, fmap_app. Qed.

Lemma poll_endpoints self count start before sleep_dur answers :
  exists k,
    Spec.endpoints
      (poll (make_request self count start before) sleep_dur answers).1.1
    = replicate k (is_dashboard self).
Proof.
  pose proof (poll_requests (make_request self count start before)
                sleep_dur answers) as H.
  unfold Spec.endpoints.
  exists (length (Spec.requests
            (poll (make_request self count start before)
               sleep_dur answers).1.1)).
  symmetry. apply replicate_as_Forall. split; [by rewrite length_fmap|].
  apply Forall_fmap. eapply Forall_impl; [exact H|].
  intros r ->. unfold Spec.to_dashboard, make_request. simpl.
  by destruct (is_dashboard self).
Qed.

(** The requests of one live call: public ones, then dashboard ones. *)
Lemma live_endpoints depth self count start before answers :
  let out := live options depth self count start before answers in
  exists n m,
    Spec.endpoints (trace out) = replicate n false ++ replicate m true
    /\ (is_dashboard self = true -> n = O)
    /\ (is_dashboard (parser out) = false -> m = O).
Proof.
  revert self before answers.
  induction depth as [|depth IH]; intros self before answers out.
  { exists O, O. by subst out. }
  subst out. cbn [live].
  destruct (poll_endpoints self count start before 30 answers) as [k Hk].
  destruct (poll _ 30 answers) as [[tr polled] rest]. simpl in Hk.
  assert (forall r self', is_dashboard self' = is_dashboard self ->
            let out := Build_Outcome r self' rest tr in
            exists n m,
              Spec.endpoints (trace out) = replicate n false ++ replicate m true
              /\ (is_dashboard self = true -> n = O)
              /\ (is_dashboard (parser out) = false -> m = O)) as Hplain.
  { intros r self' Hsame. simpl. rewrite Hk, Hsame.
    destruct (is_dashboard self).
    - exists O, k. by rewrite app_nil_l.
    - exists k, O. by rewrite app_nil_r. }
  destruct polled as [| |doc]; [by apply Hplain..|].
  destruct (negb (status doc =? 200)).
  - destruct (_ && _) eqn:Hcond; [|by apply Hplain].
    repeat (apply andb_prop in Hcond as [Hcond ?]).
    apply bool_decide_eq_true in Hcond.
    assert (is_dashboard self = false) as Hpub.
    { unfold is_dashboard. by rewrite Hcond. }
    rewrite Hpub in Hk.
    destruct (IH (set_dashboard self (Some true)) None rest)
      as (n & m & Htr & Hn & Hm).
    rewrite (Hn eq_refl) in Htr.
    exists k, m. unfold after. cbn [trace parser].
    rewrite endpoints_app, Hk, Htr.
    split; [done|]. split; [by rewrite Hpub|done].
  - assert (is_dashboard
              (if is_dashboard self then self
               else if bool_decide (dashboard_only_blog self = None)
                    then set_dashboard self (Some false) else self)
            = is_dashboard self) as Hsame.
    { destruct (is_dashboard self) eqn:E; [done|].
      by case_bool_decide. }
    repeat case_match; by apply Hplain.
Qed.

Lemma settled_apiparse tr self count start before answers :
  Spec.settled tr self ->
  let out := apiparse options self count start before answers in
  Spec.settled (tr ++ trace out) (parser out).
Proof.
  intros (n & m & Htr & Hm) out. subst out. unfold apiparse.
  destruct (prev_resps self).
  { simpl. rewrite app_nil_r. by exists n, m. }
  destruct (live_endpoints 2 self count start before answers)
    as (n' & m' & Htr' & Hn' & Hm').
  pose proof (live_sticky options 2 self count start before answers true)
    as Hsticky.
  unfold Spec.settled. rewrite endpoints_app, Htr, Htr'.
  destruct (is_dashboard self) eqn:E.
  - rewrite (Hn' eq_refl). exists n, (m + m')%nat.
    rewrite replicate_add. split; [simpl; by rewrite <-app_assoc|].
    apply is_dashboard_iff in E. apply Hsticky in E.
    apply is_dashboard_iff in E. by rewrite E.
  - rewrite (Hm eq_refl). exists (n + n')%nat, m'.
    rewrite replicate_add. simpl. rewrite app_nil_r, <-app_assoc. done.
Qed.

Lemma iteration_api ident_max on_disk c :
  let out := apiparse options (api c) MAX_POSTS (i c) (before c) (answers c) in
  let c' := Spec.config_of (iteration options ident_max on_disk c) in
  api c' = parser out
  /\ events c' = events c ++ trace out
  /\ cursors c' = cursors c ++ [before c].
Proof.
  intros out c'. subst c'. unfold iteration. fold out.
  destruct (result out) as [|e|[resp|]]; [done..| |done].
  destruct (if likes options then _ else _) as [[|q page]|]; [done| |done].
  destruct (_backup _ _ _ _ _ _) as [b st]. unfold settle.
  repeat case_match; done.
Qed.

Lemma loop_unfold ident_max on_disk fuel c :
  loop options ident_max on_disk (S fuel) c
  = match iteration options ident_max on_disk c with
    | Next _ c' => loop options ident_max on_disk fuel c'
    | Halt r c' => (Some r, c')
    end.
Proof. done. Qed.

Lemma loop_settled ident_max on_disk fuel c :
  Spec.settled (events c) (api c) ->
  let c' := (loop options ident_max on_disk fuel c).2 in
  Spec.settled (events c') (api c').
Proof.
  revert c. induction fuel as [|fuel IH]; intros c Hc; [done|].
  rewrite loop_unfold.
  destruct (iteration_api ident_max on_disk c) as (Hapi & Hev & _).
  pose proof (settled_apiparse _ _ MAX_POSTS (i c) (before c) (answers c) Hc)
    as Hstep.
  simpl in Hstep. rewrite <-Hapi, <-Hev in Hstep.
  destruct (iteration options ident_max on_disk c) as [page c'|r c'];
    simpl in Hstep; [by apply IH|done].
Qed.

Lemma backup_settled ident_max on_disk fuel account prev_archive answers :
  let c := (backup options ident_max on_disk fuel account prev_archive
              answers).2 in
  Spec.settled (events c) (api c).
Proof.
  unfold backup.
  destruct (get_api_url options account) as [blog_name [e|base]].
  { simpl. by exists O, O. }
  set (api1 := match prev_archive with
               | Some entries => read_archive options (init base account) entries
               | None => init base account
               end).
  assert (Spec.settled [] api1) as H0 by by exists O, O.
  pose proof (settled_apiparse _ _ 1%nat O None answers H0) as H1.
  simpl in H1.
  set (out := apiparse options api1 1 0 None answers) in *.
  destruct (result out) as [|e|[resp|]]; [done..| |done].
  destruct (empty_resp resp); [done|].
  destruct (likes options).
  - destruct (_ ≫= _) as [[]|]; [| done |];
      (destruct (liked_count resp); [by apply loop_settled|done]).
  - by apply loop_settled.
Qed.

End TraceFacts.

(** C7: a choice of endpoint that has been made stays as it is through
    every later call; the dashboard endpoint is chosen only in a call that
    starts undecided, with likes mode off, on an answer with status 404 and
    exactly one error, of code 4012; and in a whole run for an account the
    requests go to the public endpoint first and, from some point on, to
    the dashboard endpoint only. *)
Theorem endpoint_choice_sticky (options : Options) :
  (forall self count start before answers b,
     Api.dashboard_only_blog self = Some b ->
     Api.dashboard_only_blog
       (Api.parser (Api.apiparse options self count start before answers))
     = Some b)
  /\ (forall self count start before answers,
        Api.dashboard_only_blog self = None ->
        Api.dashboard_only_blog
          (Api.parser (Api.apiparse options self count start before answers))
        = Some true ->
        likes options = false
        /\ exists doc e,
             Some doc ∈ answers /\ Api.status doc = 404
             /\ Api.errors doc = [e] /\ Api.code e = Some 4012)
  /\ (forall ident_max on_disk fuel account prev_archive answers,
        Spec.switches_at_most_once
          (Spec.endpoints
             (Backup.events
                (Backup.backup options ident_max on_disk fuel account
                   prev_archive answers).2))).
Proof.
  split; [|split].
  - intros. by apply apiparse_sticky.
  - intros self count start before answers Hn. unfold Api.apiparse.
    destruct (Api.prev_resps self).
    { simpl. by rewrite Hn. }
    intros Hd. destruct (live_switch _ _ _ _ _ _ _ Hn Hd)
      as (Hl & doc & Hin & Hst & Hsig).
    split; [done|]. unfold Api.dashboard_signature in Hsig.
    destruct (Api.errors doc) as [|e [|]] eqn:He; [done| |done].
    exists doc, e. by apply bool_decide_eq_true in Hsig.
  - intros. destruct (backup_settled options ident_max on_disk fuel account
                        prev_archive answers) as (n & m & H & _).
    by exists n, m.
Qed.

Lemma endpoint_choice_sticky_witness :
  likes Demo.options = false
  /\ exists doc e,
       Some doc ∈ [Demo.refusal 404 [4012]; Demo.answer_of [Demo.post 3 200]]
       /\ Api.status doc = 404
       /\ Api.errors doc = [e] /\ Api.code e = Some 4012.
Proof.
  destruct (endpoint_choice_sticky Demo.options) as (_ & H & _).
  apply (H Demo.new_parser 50%nat 0%nat None); reflexivity.
Defined.

(** ** The replayed archive *)
Section ReplayFacts.
Import Api.
Context (options : Options).

Lemma sorted_ext {A} (key1 key2 : A -> Z) reverse l :
  (forall x, key1 x = key2 x) ->
  sorted Z.ltb key1 reverse l = sorted Z.ltb key2 reverse l.
Proof.
  intros Hk. induction l as [|x l IH]; [done|].
  unfold sorted in *. simpl. rewrite IH.
  generalize (foldr (insert Z.ltb key2 reverse) [] l). intros l'.
  induction l' as [|y l' IH']; simpl; [done|].
  unfold keeps. by rewrite !Hk, IH'.
Qed.

Lemma filter_all {A} (P : A -> Prop) `{forall x, Decision (P x)} (l : list A) :
  Forall P l -> base.filter P l = l.
Proof.
  induction 1 as [|x l Hx _ IH]; [done|].
  by rewrite filter_cons_True, IH.
Qed.

(** On a list in descending order of dates, dropping the leading posts at
    or after [b] leaves exactly the posts before [b]. *)
Lemma dropwhile_descending {A} (date : A -> Z) (b : Z) (l : list A) :
  StronglySorted (fun x y => date y <= date x) l ->
  dropwhile (fun e => b <=? date e) l = base.filter (fun e => date e < b) l.
Proof.
  induction 1 as [|x l Hl IH Hx]; simpl; [done|].
  destruct (b <=? date x) eqn:E.
  - rewrite filter_cons_False by lia. done.
  - rewrite filter_cons_True by lia. f_equal.
    symmetry. apply filter_all.
    eapply Forall_impl; [exact Hx|]. simpl. lia.
Qed.

Lemma islice_from {A} (l : list A) (start count : nat) :
  islice l start (start + count) = take count (drop start l).
Proof. unfold islice. f_equal. lia. Qed.

End ReplayFacts.

(** What a replayed fetch computes. After [read_archive] the parser holds
    the snapshots in descending order of the archive key, which is the like
    time in likes mode and the number in the file name in posts mode. A
    replayed fetch sends nothing, reads no answer and leaves the parser as
    it is; its page is cut out of that list by dropping the leading
    snapshots whose effective timestamp is at or after [before] and taking
    [count] snapshots from index [start]; it is empty when [start] is past
    the end. When the effective timestamps descend along the list, the
    snapshots dropped are exactly those at or after [before]; in likes mode
    they always do, and the posts of the page are those the specification
    describes. In posts mode an empty page ends the pagination loop
    successfully. *)
Theorem replay_page (options : Options) (self : Api.ApiParser)
    (entries : list Api.Snapshot) (count start : nat) (before : option Z)
    (answers : list (option Api.Doc)) :
  let self' := Api.read_archive options self entries in
  let out := Api.apiparse options self' count start before answers in
  let date e := Api.date_of options (Api.snapshot e) in
  let resps := sorted Z.ltb (Api.archive_key options) true entries in
  let dropped :=
    match before with
    | Some b => dropwhile (fun e => b <=? date e) resps
    | None => resps
    end in
  Api.prev_resps self' = Some resps
  /\ resps ≡ₚ entries
  /\ StronglySorted
       (fun a b => Api.archive_key options b <= Api.archive_key options a)
       resps
  /\ exists resp,
       Api.result out = Api.Returned (Some resp)
       /\ Api.parser out = self' /\ Api.unread out = answers
       /\ Api.trace out = []
       /\ Api.posts resp
          = Some (Api.snapshot <$> take count (drop start dropped))
       /\ Api.post_respfiles resp
          = Some (Api.path <$> take count (drop start dropped))
       /\ ((length dropped <= start)%nat -> Api.posts resp = Some [])
       /\ (forall b, before = Some b ->
           StronglySorted (fun x y => date y <= date x) resps ->
           dropped = base.filter (fun e => date e < b) resps)
       /\ (likes options = true ->
           Api.posts resp
           = Some (Spec.replayed_page options entries count start before))
       /\ (forall ident_max on_disk c,
             likes options = false ->
             Backup.api c = self' -> Backup.before c = before ->
             Backup.i c = start -> count = MAX_POSTS ->
             (length dropped <= start)%nat ->
             exists c',
               Backup.iteration options ident_max on_disk c
               = Backup.Halt Backup.Done c').
Proof.
  intros self' out date resps dropped.
  split; [done|]. split; [apply sorted_perm|].
  split; [apply sorted_descending|].
  exists (Api.replay options resps count start before).
  do 4 (split; [done|]).
  unfold Api.replay. cbn [Api.posts Api.post_respfiles].
  rewrite islice_from.
  do 2 (split; [reflexivity|]). split; [|split; [|split]].
  - intros Hlen. rewrite drop_ge by exact Hlen. by rewrite take_nil.
  - intros b -> Hsorted. by apply (dropwhile_descending date).
  - intros Hlikes. unfold Spec.replayed_page.
    assert (forall e, Api.archive_key options e
                      = Spec.effective_timestamp options (Api.snapshot e))
      as Hkey.
    { intros e. unfold Api.archive_key, Spec.effective_timestamp.
      by rewrite Hlikes. }
    rewrite <-(sorted_ext _ _ true entries Hkey). fold resps.
    destruct before as [b|]; [|done].
    do 4 f_equal.
    apply (dropwhile_descending
             (fun e => Spec.effective_timestamp options (Api.snapshot e))).
    eapply StronglySorted_weaken; [|apply sorted_descending].
    intros x y. simpl. rewrite !Hkey. done.
  - intros ident_max on_disk c Hlikes Hapi Hbefore Hi -> Hlen.
    unfold Backup.iteration, Api.apiparse.
    rewrite Hapi, Hbefore, Hi. subst self'.
    cbn [Api.prev_resps Api.read_archive Api.result].
    rewrite Hlikes. unfold Api.replay. cbn [Api.posts].
    rewrite islice_from. fold resps.
    replace (drop start _) with (@nil Api.Snapshot)
      by (symmetry; apply drop_ge; exact Hlen).
    rewrite take_nil. by eexists.
Qed.

(** C6 fails on the code, which does not reconstruct the response of the
    API as its comment says. (1) In posts mode the snapshots are ordered by
    the number in the file name and the dropping stops at the first post
    before [before]: of the snapshots 3 (dated 200) and 5 (dated 100) the
    page asked for before 150 is 5, 3 and keeps the post dated 200, where
    the specification gives 5 alone; the loop's own check of the period
    then raises [RuntimeError] on that post. (2) In likes mode the replayed
    response has no ['liked_count'], and [backup] ends with [KeyError].
    (3) With [before] given the page is also cut at [start], where the live
    request carries no offset: of 120 snapshots inside the period a run
    queues the posts 120 to 71 and 20 to 1 and ends successfully without
    the posts 70 to 21. *)
Theorem replay_breaks_live_contract :
  let self :=
    Api.read_archive Demo.options Demo.new_parser Demo.small_archive in
  (exists resp,
     Api.result (Api.apiparse Demo.options self 50 0 (Some 150) [])
     = Api.Returned (Some resp)
     /\ Api.posts resp = Some [Demo.post 5 100; Demo.post 3 200]
     /\ Spec.replayed_page Demo.options Demo.small_archive 50 0 (Some 150)
        = [Demo.post 5 100])
  /\ (Backup.backup Demo.until_150_options None Demo.nothing_on_disk 5
        "staff" (Some Demo.small_archive) []).1
     = Some (Backup.Crashed RuntimeError)
  /\ (Backup.backup Demo.likes_options None Demo.nothing_on_disk 5
        "staff" (Some Demo.small_archive) []).1
     = Some (Backup.Crashed KeyError)
  /\ (let r := Backup.backup Demo.until_1121_options None
                 Demo.nothing_on_disk 10 "staff" (Some Demo.long_archive) [] in
      r.1 = Some Backup.Done
      /\ Backup.cursors r.2 = [Some 1121; Some 1071; Some 1001]
      /\ id <$> Backup.queued (Backup.progress r.2)
         = (Z.of_nat <$> reverse (seq 71 50))
           ++ (Z.of_nat <$> reverse (seq 1 20)))
  /\ Api.offset_param (Api.make_request Demo.public_parser 50 50 (Some 1071))
     = None.
Proof.
  split; [|split; [|split; [|split]]].
  - eexists. split; [reflexivity|]. split; reflexivity.
  - vm_compute. reflexivity.
  - vm_compute. reflexivity.
  - vm_compute. repeat split; reflexivity.
  - reflexivity.
Qed.

(** ** The cursor of "before" pagination *)
Section CursorFacts.
Import Api Backup.
Context (options : Options) (ident_max : option Z) (on_disk : Post -> bool).

Local Abbreviation iteration := (Backup.iteration options ident_max on_disk).
Local Abbreviation loop := (Backup.loop options ident_max on_disk).

Lemma advance_inr b oldest_date b' :
  advance b oldest_date = inr b' ->
  exists d, oldest_date = Some d /\ d <= b
            /\ b' = (if bool_decide (d = b) then d - 1 else d)
            /\ b' < b.
Proof.
  unfold advance. destruct oldest_date as [d|]; [|done].
  destruct (d <=? b) eqn:E; [|done]. intros [= <-].
  exists d. split; [done|]. split; [lia|].
  case_bool_decide.
  - rewrite (proj2 (Z.eqb_eq _ _)) by done. lia.
  - rewrite (proj2 (Z.eqb_neq _ _)) by done. lia.
Qed.

(** A pass that goes on in posts mode with a cursor, on a blog that is not
    dashboard-only. *)
Lemma iteration_next c b page c' :
  likes options = false ->
  before c = Some b ->
  iteration c = Next page c' ->
  is_dashboard (api c') = false ->
  exists p,
    last (sorted Z.ltb (sort_key options) true page) = Some p
    /\ timestamp p <= b
    /\ before c'
       = Some (if bool_decide (timestamp p = b) then timestamp p - 1
               else timestamp p)
    /\ (exists b', before c' = Some b' /\ b' < b).
Proof.
  intros Hlikes Hb. unfold Backup.iteration.
  set (out := apiparse options (api c) MAX_POSTS (i c) (before c) (answers c)).
  destruct (result out) as [|e|[resp|]]; [done..| |done].
  rewrite Hlikes.
  destruct (posts resp) as [[|q page0]|]; [done| |done].
  destruct (_backup _ _ _ _ _ _) as [batch st] eqn:Hbatch.
  unfold settle. cbn [Backup.api Backup.before]. rewrite Hlikes, Hb.
  destruct batch as [e|[] oldest_date]; [done| |done].
  destruct (is_dashboard (parser out)) eqn:Hdash.
  { intros [= <- <-]. simpl. by rewrite Hdash. }
  destruct (advance b oldest_date) as [e|b'] eqn:Hadv; [done|].
  intros [= <- <-] _. cbn [Backup.before].
  apply advance_inr in Hadv as (d & -> & Hle & -> & Hlt).
  unfold _backup in Hbatch. apply process_oldest in Hbatch.
  destruct (last (sorted Z.ltb (sort_key options) true (q :: page0)))
    as [p|]; [|done].
  injection Hbatch as ->. unfold date_of in *. rewrite Hlikes in *.
  exists p. split; [done|]. split; [done|]. split; [done|]. by eexists.
Qed.

Lemma loop_stays_dashboard fuel c :
  is_dashboard (api c) = true -> is_dashboard (api (loop fuel c).2) = true.
Proof.
  revert c. induction fuel as [|fuel IH]; intros c Hc; [done|].
  rewrite loop_unfold.
  destruct (iteration_api options ident_max on_disk c) as (Hapi & _ & _).
  pose proof (apiparse_stays_dashboard options _ MAX_POSTS (i c) (before c)
                (answers c) Hc) as Hstep.
  rewrite <-Hapi in Hstep.
  destruct (iteration c) as [page c'|r c']; [by apply IH|done].
Qed.

Lemma decreasing_NoDup (bs : list Z) : StronglySorted Z.gt bs -> NoDup bs.
Proof.
  induction 1 as [|b bs _ IH Hb]; constructor; [|done].
  intros Hin. rewrite Forall_forall in Hb. specialize (Hb _ Hin). lia.
Qed.

Lemma loop_cursors fuel c b :
  likes options = false ->
  before c = Some b ->
  is_dashboard (api (loop fuel c).2) = false ->
  exists bs,
    cursors (loop fuel c).2 = cursors c ++ (Some <$> bs)
    /\ StronglySorted Z.gt bs
    /\ Forall (fun x => x <= b) bs.
Proof.
  intros Hlikes. revert c b.
  induction fuel as [|fuel IH]; intros c b Hb Hfinal.
  { exists []. simpl. rewrite app_nil_r. by repeat constructor. }
  rewrite loop_unfold in Hfinal |- *.
  destruct (iteration_api options ident_max on_disk c) as (_ & _ & Hcur).
  rewrite Hb in Hcur.
  destruct (iteration c) as [page c'|r c'] eqn:Hit; simpl in Hcur.
  - assert (is_dashboard (api c') = false) as Hpub.
    { destruct (is_dashboard (api c')) eqn:E; [|done].
      by rewrite (loop_stays_dashboard fuel c' E) in Hfinal. }
    destruct (iteration_next c b page c' Hlikes Hb Hit Hpub)
      as (_ & _ & _ & _ & b' & Hb' & Hlt).
    destruct (IH c' b' Hb' Hfinal) as (bs & Hbs & Hsorted & Hle).
    exists (b :: bs). rewrite Hbs, Hcur, <-app_assoc. split; [done|].
    split; [|constructor; [lia|]].
    + constructor; [done|]. eapply Forall_impl; [exact Hle|]. simpl. lia.
    + eapply Forall_impl; [exact Hle|]. simpl. lia.
  - exists [b]. simpl. split; [done|]. by repeat constructor.
Qed.

End CursorFacts.

(** C1, as amended: in posts mode with a cursor, on a blog that is not
    dashboard-only, a pass of the loop that goes on sets the cursor to the
    timestamp of the last post it processed, which is the post of the batch
    with the lowest id, minus one if and only if that timestamp equals the
    cursor; a last post newer than the cursor fails the assertion instead.
    So the cursors a run passes to [apiparse] are strictly decreasing, and
    none repeats. *)
Theorem before_cursor_decreases (options : Options) (ident_max : option Z)
    (on_disk : Post -> bool) :
  likes options = false ->
  (forall c b page c',
     Backup.before c = Some b ->
     Backup.iteration options ident_max on_disk c = Backup.Next page c' ->
     Api.is_dashboard (Backup.api c') = false ->
     exists p,
       last (sorted Z.ltb (Backup.sort_key options) true page) = Some p
       /\ timestamp p <= b
       /\ Backup.before c'
          = Some (if bool_decide (timestamp p = b) then timestamp p - 1
                  else timestamp p))
  /\ (forall b d, b < d -> Backup.advance b (Some d) = inl AssertionError)
  /\ (forall fuel c b,
        Backup.before c = Some b ->
        let c' := (Backup.loop options ident_max on_disk fuel c).2 in
        Api.is_dashboard (Backup.api c') = false ->
        exists bs,
          Backup.cursors c' = Backup.cursors c ++ (Some <$> bs)
          /\ StronglySorted Z.gt bs
          /\ NoDup bs).
Proof.
  intros Hlikes. split; [|split].
  - intros c b page c' Hb Hit Hpub.
    destruct (iteration_next options ident_max on_disk c b page c'
                Hlikes Hb Hit Hpub) as (p & ? & ? & ? & _).
    by exists p.
  - intros b d Hlt. unfold Backup.advance.
    by rewrite (proj2 (Z.leb_gt _ _)) by lia.
  - intros fuel c b Hb c' Hpub.
    destruct (loop_cursors options ident_max on_disk fuel c b Hlikes Hb Hpub)
      as (bs & ? & ? & _).
    exists bs. split; [done|]. split; [done|]. by apply decreasing_NoDup.
Qed.

Lemma before_cursor_decreases_witness :
  exists bs,
    Backup.cursors
      (Backup.loop Demo.period_options None Demo.nothing_on_disk 5
         (Demo.start Demo.public_parser (Some 300)
            [Demo.answer_of [Demo.post 9 300; Demo.post 8 250];
             Demo.answer_of [Demo.post 7 250];
             Demo.answer_of []])).2
    = Some <$> bs
    /\ StronglySorted Z.gt bs /\ NoDup bs.
Proof.
  destruct (before_cursor_decreases Demo.period_options None
              Demo.nothing_on_disk eq_refl) as (_ & _ & H).
  apply (H 5%nat
           (Demo.start Demo.public_parser (Some 300)
              [Demo.answer_of [Demo.post 9 300; Demo.post 8 250];
               Demo.answer_of [Demo.post 7 250];
               Demo.answer_of []])
           300); reflexivity.
Defined.

(** C1 as stated fails on a batch whose lowest id does not carry the oldest
    timestamp: the next cursor is 200, the timestamp of the last post
    processed, although a post dated 100 was seen. *)
Lemma next_cursor_counterexample :
  let page := [Demo.post 3 200; Demo.post 5 100] in
  exists c',
    Backup.iteration Demo.period_options None Demo.nothing_on_disk
      (Demo.start Demo.public_parser (Some 300) [Demo.answer_of page])
    = Backup.Next page c'
    /\ Backup.before c' = Some 200
    /\ Spec.next_cursor Demo.period_options 300 page = Some 100
    /\ Backup.before c' <> Spec.next_cursor Demo.period_options 300 page.
Proof.
  eexists. split; [reflexivity|]. split; [reflexivity|].
  split; [reflexivity|]. vm_compute. discriminate.
Qed.

(** ** The index *)
Section BuildFacts.
Import Index.

Lemma posts_of_add_post index p y m :
  posts_of (add_post index p) y m
  = if decide (Index.in_month y m p) then posts_of index y m ++ [p]
    else posts_of index y m.
Proof.
  unfold add_post, posts_of at 1, months_of at 1. cbv zeta.
  destruct (decide (tm_year p = y)) as [Hy|Hy].
  - rewrite Hy, lookup_insert_eq. simpl.
    destruct (decide (tm_mon p = m)) as [Hm|Hm].
    + rewrite Hm, lookup_insert_eq. simpl.
      rewrite decide_True by done. done.
    + rewrite lookup_insert_ne by done.
      rewrite decide_False by (intros [_ ?]; done). done.
  - rewrite lookup_insert_ne by done.
    rewrite decide_False by (intros [? _]; done). done.
Qed.

Lemma posts_of_foldl index files y m :
  posts_of (foldl add_post index files) y m
  = posts_of index y m ++ base.filter (Index.in_month y m) files.
Proof.
  revert index. induction files as [|p files IH]; intros index; simpl.
  - by rewrite app_nil_r.
  - rewrite IH, posts_of_add_post.
    destruct (decide (Index.in_month y m p)).
    + rewrite filter_cons_True by done. by rewrite <-app_assoc.
    + by rewrite filter_cons_False by done.
Qed.

Lemma posts_of_build files y m :
  posts_of (build_index files) y m = base.filter (Index.in_month y m) files.
Proof. unfold build_index. by rewrite posts_of_foldl. Qed.

Lemma dom_foldl index files :
  dom (foldl add_post index files)
  = dom index ∪ list_to_set (tm_year <$> files).
Proof.
  revert index. induction files as [|p files IH]; intros index; simpl.
  - set_solver.
  - rewrite IH. unfold add_post. rewrite dom_insert_L. set_solver.
Qed.

Lemma dom_months_add_post index p y :
  dom (months_of (add_post index p) y)
  = if decide (tm_year p = y) then {[tm_mon p]} ∪ dom (months_of index y)
    else dom (months_of index y).
Proof.
  unfold add_post, months_of at 1.
  destruct (decide (tm_year p = y)) as [Hy|Hy].
  - rewrite Hy, lookup_insert_eq. simpl. by rewrite dom_insert_L.
  - by rewrite lookup_insert_ne by done.
Qed.

Lemma dom_months_foldl index files y :
  dom (months_of (foldl add_post index files) y)
  = dom (months_of index y)
    ∪ list_to_set (tm_mon <$> base.filter (fun p => tm_year p = y) files).
Proof.
  revert index. induction files as [|p files IH]; intros index; simpl.
  - set_solver.
  - rewrite IH, dom_months_add_post.
    destruct (decide (tm_year p = y)).
    + rewrite filter_cons_True by done. set_solver.
    + by rewrite filter_cons_False by done.
Qed.

(** Listing the same post files in another order gives a similar index,
    provided no two posts of a month have the same modification time. *)
Lemma build_index_similar reverse files1 files2 :
  files1 ≡ₚ files2 ->
  (forall x y, x ∈ files1 -> y ∈ files1 ->
     tm_year x = tm_year y -> tm_mon x = tm_mon y -> date x = date y ->
     x = y) ->
  Index.similar reverse (build_index files1) (build_index files2).
Proof.
  intros Hperm Hdistinct. unfold build_index.
  split; [|split; [|split]].
  - rewrite !dom_foldl. f_equal. apply list_to_set_perm_L.
    by apply fmap_Permutation.
  - intros y. rewrite !dom_months_foldl. f_equal.
    apply list_to_set_perm_L, fmap_Permutation. by rewrite Hperm.
  - intros y m. rewrite !posts_of_foldl. simpl.
    apply (sorted_unique Z.ltb date Zltb_asym Zltb_negtrans).
    + by rewrite Hperm.
    + intros p q [[Hpy Hpm] Hp]%list_elem_of_filter
        [[Hqy Hqm] Hq]%list_elem_of_filter ??.
      apply Hdistinct; [done|done|congruence|congruence|lia].
  - intros y m. rewrite !posts_of_foldl. simpl. by rewrite Hperm.
Qed.

End BuildFacts.

Section SaveFacts.
Import Index.
Context (options : Options).
Context (header : string -> string -> string -> bool -> string).
Context (blog_title blog_subtitle : string).
Context (strftime : string -> Z -> Z -> string).
Context (post_ext save_dir : string).

Local Abbreviation save_month index :=
  (Index.save_month options header strftime post_ext save_dir index).
Local Abbreviation save_year index :=
  (Index.save_year options header strftime post_ext save_dir index).
Local Abbreviation write_page index :=
  (Index.write_page options header strftime post_ext save_dir index).
Local Abbreviation save_index now index :=
  (Index.save_index options header blog_title blog_subtitle strftime
     post_ext save_dir now index).

Lemma collect_ext {A} (f g : A -> option (string * list File)) (l : list A) :
  (forall x, f x = g x) -> collect f l = collect g l.
Proof.
  intros Hfg. induction l as [|x l IH]; simpl; [done|].
  by rewrite Hfg, IH.
Qed.

Section Similar.
Context (index1 index2 : Index).
Hypothesis Hsim : Index.similar (reverse_month options) index1 index2.

Lemma pages_per_month_similar posts_page y m :
  pages_per_month index1 posts_page y m
  = pages_per_month index2 posts_page y m.
Proof using Hsim.
  destruct Hsim as (_ & _ & _ & Hlen).
  unfold pages_per_month. by rewrite Hlen.
Qed.

Lemma write_page_similar body_class archives index_dir year month posts
    posts_page page start :
  write_page index1 body_class archives index_dir year month posts
    posts_page page start
  = write_page index2 body_class archives index_dir year month posts
      posts_page page start.
Proof using Hsim.
  unfold Index.write_page.
  rewrite (pages_per_month_similar posts_page year month).
  destruct (next_month archives year month false) as [[py pm]|]; simpl.
  - by rewrite (pages_per_month_similar posts_page py pm).
  - done.
Qed.

Lemma save_month_similar body_class archives index_dir year month :
  save_month index1 body_class archives index_dir year month
  = save_month index2 body_class archives index_dir year month.
Proof using Hsim.
  unfold Index.save_month.
  destruct Hsim as (_ & _ & Hsorted & _). rewrite (Hsorted year month).
  destruct (_ =? 0)%nat; [done|].
  f_equal. apply mapM_ext. intros [k start]. apply write_page_similar.
Qed.

Lemma save_year_similar body_class archives index_dir year :
  save_year index1 body_class archives index_dir year
  = save_year index2 body_class archives index_dir year.
Proof using Hsim.
  unfold Index.save_year.
  destruct Hsim as (_ & Hmonths & _ & Hlen). rewrite (Hmonths year).
  f_equal. apply collect_ext. intros month.
  by rewrite save_month_similar, Hlen.
Qed.

Lemma save_index_similar now body_class index_dir title :
  save_index now index1 body_class index_dir title
  = save_index now index2 body_class index_dir title.
Proof using Hsim.
  unfold Index.save_index.
  pose proof Hsim as (Hyears & Hmonths & _ & _). rewrite Hyears.
  assert ((y ← elements (dom index2);
           (fun m => (y, m)) <$> elements (dom (months_of index1 y)))
          = (y ← elements (dom index2);
             (fun m => (y, m)) <$> elements (dom (months_of index2 y))))
    as ->.
  { apply list_bind_ext; [|done]. intros y. by rewrite Hmonths. }
  f_equal. apply collect_ext. intros year. apply save_year_similar.
Qed.

End Similar.

(** The pages of the months do not depend on the time of the rebuild. *)
Lemma save_index_now now1 now2 index body_class index_dir title :
  (fun files => take (length files - 1) files)
    <$> save_index now1 index body_class index_dir title
  = (fun files => take (length files - 1) files)
      <$> save_index now2 index body_class index_dir title.
Proof.
  assert (forall (files : list File) x,
            take (length (files ++ [x]) - 1) (files ++ [x]) = files) as Hcut.
  { intros files x. rewrite length_app. simpl.
    replace (length files + 1 - 1)%nat with (length files) by lia.
    apply take_app_length. }
  unfold Index.save_index.
  destruct (collect _ _) as [[years files]|]; [|done].
  cbn [mbind option_bind fmap option_fmap option_map]. by rewrite !Hcut.
Qed.

End SaveFacts.

(** C3, as amended: the files a rebuild writes are a function of the post
    files found, the options and the local time at which the index file is
    written. Listing the same post files in another order changes nothing,
    provided no two posts of the same month have the same modification
    time; a rebuild at another time changes no file but the last one
    written, the index file, which quotes the time. *)
Theorem rebuild_deterministic (options : Options)
    (header : string -> string -> string -> bool -> string)
    (blog_title blog_subtitle : string)
    (strftime : string -> Z -> Z -> string) (post_ext save_dir : string)
    (files1 files2 : list Index.LocalPost) :
  files1 ≡ₚ files2 ->
  (forall x y, x ∈ files1 -> y ∈ files1 ->
     Index.tm_year x = Index.tm_year y -> Index.tm_mon x = Index.tm_mon y ->
     Index.date x = Index.date y -> x = y) ->
  let rebuild := Index.rebuild options header blog_title blog_subtitle
                   strftime post_ext save_dir in
  (forall now, rebuild now files1 = rebuild now files2)
  /\ (forall now1 now2,
        (fun files => take (length files - 1) files) <$> rebuild now1 files1
        = (fun files => take (length files - 1) files) <$> rebuild now2 files2).
Proof.
  intros Hperm Hdistinct rebuild. subst rebuild.
  assert (forall now,
            Index.rebuild options header blog_title blog_subtitle strftime
              post_ext save_dir now files1
            = Index.rebuild options header blog_title blog_subtitle strftime
                post_ext save_dir now files2) as Horder.
  { intros now. unfold Index.rebuild. apply save_index_similar.
    by apply build_index_similar. }
  split; [done|].
  intros now1 now2. rewrite <-(Horder now2). apply save_index_now.
Qed.

Lemma rebuild_deterministic_witness :
  Demo.rebuild "01/31/24 10:00:00"
    [Demo.local_post "posts/1.html" 1704067200 2024 1;
     Demo.local_post "posts/2.html" 1704153600 2024 1]
  = Demo.rebuild "01/31/24 10:00:00"
      [Demo.local_post "posts/2.html" 1704153600 2024 1;
       Demo.local_post "posts/1.html" 1704067200 2024 1].
Proof.
  apply (rebuild_deterministic Demo.options Demo.header "Staff" "News"
           Demo.strftime ".html" ".."
           [Demo.local_post "posts/1.html" 1704067200 2024 1;
            Demo.local_post "posts/2.html" 1704153600 2024 1]
           [Demo.local_post "posts/2.html" 1704153600 2024 1;
            Demo.local_post "posts/1.html" 1704067200 2024 1]).
  - apply perm_swap.
  - intros x y Hx Hy _ _ Hdate.
    apply list_elem_of_In in Hx, Hy. simpl in Hx, Hy.
    destruct Hx as [<-|[<-|[]]], Hy as [<-|[<-|[]]];
      first [reflexivity | discriminate Hdate].
Defined.

(** C3 as stated fails: a second rebuild of the same post files five
    seconds later writes another index file; and two post files of one
    month with the same modification time come out in the order in which
    they are listed. *)
Lemma rebuild_counterexample :
  Demo.rebuild "01/31/24 10:00:00"
    [Demo.local_post "posts/1.html" 1704067200 2024 1]
  <> Demo.rebuild "01/31/24 10:00:05"
       [Demo.local_post "posts/1.html" 1704067200 2024 1]
  /\ Demo.rebuild "01/31/24 10:00:00"
       [Demo.local_post "posts/1.html" 1704067200 2024 1;
        Demo.local_post "posts/2.html" 1704067200 2024 1]
     <> Demo.rebuild "01/31/24 10:00:00"
          [Demo.local_post "posts/2.html" 1704067200 2024 1;
           Demo.local_post "posts/1.html" 1704067200 2024 1].
Proof.
  split; vm_compute; discriminate.
Qed.
